(** * New England Airports Explorer: the data layer of [final_project.py]

    The script reads [new_england_airports.csv] into a pandas DataFrame,
    drops the rows without coordinates, computes two region summaries,
    renders one of three pages and finally adds two derived columns.

    Conventions of the embedding.
    - A cell of a text column is [Some s] for a Python [str] and [None] for
      the missing marker NaN that [pd.read_csv] puts in an empty cell.
      A character is an 8-bit [ascii], so [String.length] is Python's [len]
      and [String.compare] is Python's code-point order on such strings.
    - A cell of a numeric column is [Some q] for a finite float and [None]
      for NaN.  Comparisons and [max] are exact on floats, so [Q] carries
      them faithfully; the sum and the division of [mean] are the ideal
      ones.
    - The CSV is taken to have the eight columns the script reads.
    - Only the values a page computes are modelled; of the rendering calls
      the pie chart of line 94 is taken to fail on an empty series and the
      others ([st.dataframe], [ax3.barh], [st.pyplot], [st.pydeck_chart])
      to succeed. *)

From Stdlib Require Import List Bool Arith ZArith QArith Lia.
From Stdlib Require Import String.
From Stdlib Require Import Permutation Sorted Mergesort Orders OrderedTypeEx.
From Stdlib Require Import RelationClasses.
Import ListNotations.

Close Scope Q_scope.
Open Scope list_scope.

(** ** Cells, rows and frames *)

Definition text := option string.
Definition number := option Q.

Record Row := mkRow {
  name : text;
  municipality : text;
  iso_region : text;
  type : text;
  scheduled_service : text;
  elevation_ft : number;
  latitude_deg : number;
  longitude_deg : number
}.

(** A frame is its rows plus the two columns the script may add at its end;
    [None] means the column does not exist. *)
Record DataFrame := mkDF {
  rows : list Row;
  name_length : option (list nat);
  high_altitude : option (list bool)
}.

Definition from_rows (l : list Row) : DataFrame := mkDF l None None.

(** ** Outcomes of Python code *)

Inductive exn := TypeError | ValueError.

Inductive outcome (A : Type) : Type :=
| Ok (a : A)
| Stop (message : string)   (* st.error(message); st.stop() *)
| Raise (e : exn).          (* uncaught exception *)

Arguments Ok {A} a.
Arguments Stop {A} message.
Arguments Raise {A} e.

Definition bind {A B} (m : outcome A) (k : A -> outcome B) : outcome B :=
  match m with
  | Ok a => k a
  | Stop msg => Stop msg
  | Raise e => Raise e
  end.

Declare Scope outcome_scope.
Delimit Scope outcome_scope with outcome.
Notation "x <- m ;; k" := (bind m (fun x => k))
  (at level 100, m at next level, right associativity) : outcome_scope.
Open Scope outcome_scope.

(** ** Series primitives *)

Definition isna {A} (c : option A) : bool :=
  match c with None => true | Some _ => false end.

Definition notna {A} (c : option A) : bool := negb (isna c).

(** [Series.dropna()] *)
Fixpoint dropna {A} (col : list (option A)) : list A :=
  match col with
  | [] => []
  | None :: t => dropna t
  | Some x :: t => x :: dropna t
  end.

(** [series == value]: NaN and non-strings compare unequal to everything. *)
Definition text_eqb (c v : text) : bool :=
  match c, v with
  | Some a, Some b => String.eqb a b
  | _, _ => false
  end.

Definition eq_mask (col : list text) (v : text) : list bool :=
  map (fun c => text_eqb c v) col.

(** Boolean-mask selection on one column.  The script builds every mask from
    the frame it selects from, so the two have the same length. *)
Fixpoint select {A} (mask : list bool) (l : list A) : list A :=
  match mask, l with
  | true :: m, x :: t => x :: select m t
  | false :: m, _ :: t => select m t
  | _, _ => []
  end.

(** [df[mask]] *)
Definition getitem_mask (df : DataFrame) (mask : list bool) : DataFrame :=
  mkDF (select mask (rows df))
       (option_map (select mask) (name_length df))
       (option_map (select mask) (high_altitude df)).

(** [df.head(n)] *)
Definition head (n : nat) (df : DataFrame) : DataFrame :=
  mkDF (firstn n (rows df))
       (option_map (firstn n) (name_length df))
       (option_map (firstn n) (high_altitude df)).

(** [df.take(indexer)]; the indexers of the script are permutations of the
    positions of the frame. *)
Definition take {A} (indexer : list nat) (l : list A) : list A :=
  flat_map (fun i => match nth_error l i with Some x => [x] | None => [] end)
           indexer.

Definition df_take (indexer : list nat) (df : DataFrame) : DataFrame :=
  mkDF (take indexer (rows df))
       (option_map (take indexer) (name_length df))
       (option_map (take indexer) (high_altitude df)).

Definition Qmax_float (a b : Q) : Q := if Qle_bool a b then b else a.

(** [Series.max()], skipna: NaN when no value is present. *)
Definition series_max (col : list number) : number :=
  match dropna col with
  | [] => None
  | x :: t => Some (fold_left Qmax_float t x)
  end.

(** [Series.mean()], skipna: sum of the present values over their count. *)
Definition series_mean (col : list number) : number :=
  match dropna col with
  | [] => None
  | vals => Some (Qdiv (fold_left Qplus vals (0#1)%Q)
                       (inject_Z (Z.of_nat (List.length vals))))
  end.

(** ** Lines 46-50: [region_summary] *)

Definition default_region : string := "US-CT".

Definition region_summary_at (df : DataFrame) (region : string)
  : nat * number :=
  let subset := getitem_mask df (eq_mask (map iso_region (rows df)) (Some region)) in
  let count := List.length (rows subset) in
  let max_elev := series_max (map elevation_ft (rows subset)) in
  (count, max_elev).

(** A call site either passes [region] or leaves it to the default. *)
Definition region_summary (df : DataFrame) (region : option string)
  : nat * number :=
  region_summary_at df
    (match region with Some r => r | None => default_region end).

(** ** Lines 21-30: loading and cleaning *)

Inductive read_csv_result :=
| CsvFrame (records : list Row)
| CsvFileNotFound
| CsvException (e : string).

Definition coords_present (r : Row) : bool :=
  notna (latitude_deg r) && notna (longitude_deg r).

(** [data.dropna(subset=['latitude_deg', 'longitude_deg'])] *)
Definition dropna_coords (df : DataFrame) : DataFrame :=
  getitem_mask df (map coords_present (rows df)).

Definition load (csv : read_csv_result) : outcome DataFrame :=
  match csv with
  | CsvFrame records => Ok (dropna_coords (from_rows records))
  | CsvFileNotFound =>
      Stop "The dataset file could not be found. Please ensure 'new_england_airports.csv' is in the correct location."
  | CsvException e =>
      Stop (String.append "An unexpected error occurred while loading the data: " e)
  end.

(** ** Python's [sorted], [len] and pandas' [unique] *)

Module StringOrder <: TotalLeBool.
Definition t := string.
Definition leb := String.leb.
Theorem leb_total : forall a1 a2, leb a1 a2 = true \/ leb a2 a1 = true.
Proof. exact String.leb_total. Qed.
End StringOrder.

Module StringSort := Sort StringOrder.

(** [Series.unique()]: the distinct values in order of first appearance. *)
Fixpoint unique {A} (eqb : A -> A -> bool) (col : list A) : list A :=
  match col with
  | [] => []
  | c :: t => c :: filter (fun d => negb (eqb c d)) (unique eqb t)
  end.

(** Equality of cells as [unique] sees it: all NaN are one value. *)
Definition cell_eqb (a b : text) : bool :=
  match a, b with
  | Some x, Some y => String.eqb x y
  | None, None => true
  | _, _ => false
  end.

(** [sorted(values)] on strings and NaN floats.  Strings sort by code point.
    [nan < nan] is false, so a list of NaN only is one ascending run and
    comes back as it is.  A list that mixes the two compares a [float] with
    a [str]: TypeError. *)
Definition py_sorted (l : list text) : outcome (list text) :=
  if forallb notna l then Ok (map Some (StringSort.sort (dropna l)))
  else if forallb isna l then Ok l
  else Raise TypeError.

(** [len(x)]: a NaN float has no [len]. *)
Definition py_len (c : text) : outcome nat :=
  match c with
  | Some s => Ok (String.length s)
  | None => Raise TypeError
  end.

Fixpoint map_outcome {A B} (f : A -> outcome B) (l : list A) : outcome (list B) :=
  match l with
  | [] => Ok []
  | x :: t => y <- f x ;; ys <- map_outcome f t ;; Ok (y :: ys)
  end.

(** [st.selectbox(label, options)]: the option the user picked, [None]
    when there is none. *)
Definition selectbox (options : list text) (choice : nat) : text :=
  match nth_error options choice with
  | Some v => v
  | None => None
  end.

(** ** Lines 55-84: the page "Airport Filter" *)

Definition region_list (data : DataFrame) : outcome (list text) :=
  py_sorted (unique cell_eqb (map iso_region (rows data))).

(** Line 63. *)
Definition region_airports (data : DataFrame) (selected_region : text)
  : DataFrame :=
  getitem_mask data (eq_mask (map iso_region (rows data)) selected_region).

Definition city_list (region_airports : DataFrame) : outcome (list text) :=
  py_sorted (map Some
    (unique String.eqb (dropna (map municipality (rows region_airports))))).

(** Lines 69-70. *)
Definition scheduled_only (show_scheduled_only : bool) (region_airports : DataFrame)
  : DataFrame :=
  if show_scheduled_only
  then getitem_mask region_airports
         (eq_mask (map scheduled_service (rows region_airports)) (Some "yes"%string))
  else region_airports.

(** Line 80. *)
Definition city_filtered_airports (region_airports : DataFrame) (selected_city : text)
  : DataFrame :=
  getitem_mask region_airports
    (eq_mask (map municipality (rows region_airports)) selected_city).

Inductive Shown :=
| ShowFrame (df : DataFrame)   (* st.dataframe *)
| ShowText (s : string).       (* st.write *)

(** [df.empty] *)
Definition empty (df : DataFrame) : bool :=
  match rows df with [] => true | _ => false end.

(** Lines 81-84. *)
Definition show_city (city_filtered : DataFrame) : Shown :=
  if negb (empty city_filtered) then ShowFrame city_filtered
  else ShowText "No airports found in this city.".

(** ** Line 103: the ten highest airports *)

(** Order of [sort_values(ascending=False)] with [na_position='last']. *)
Definition precedes (a b : number) : Prop :=
  match a, b with
  | Some x, Some y => (y <= x)%Q
  | None, Some _ => False
  | _, None => True
  end.

Definition precedesb (a b : number) : bool :=
  match a, b with
  | Some x, Some y => Qle_bool y x
  | None, Some _ => false
  | _, None => true
  end.

(** The indexer [sort_values] takes the rows by.  The script leaves [kind]
    at its default ['quicksort'], which pandas documents as not stable: the
    indexer is a permutation of the positions that puts the keys in order,
    and nothing more is promised about equal keys. *)
Class Nargsort := {
  nargsort : list number -> list nat;
  nargsort_perm : forall keys,
    Permutation (nargsort keys) (seq 0 (List.length keys));
  nargsort_sorted : forall keys,
    StronglySorted precedes (map (fun i => nth i keys None) (nargsort keys))
}.

(** [df.sort_values(by='elevation_ft', ascending=False)] *)
Definition sort_values_elevation `{Nargsort} (df : DataFrame) : DataFrame :=
  df_take (nargsort (map elevation_ft (rows df))) df.

Definition top_elev `{Nargsort} (data : DataFrame) : DataFrame :=
  head 10 (sort_values_elevation data).

(** Two indexers that meet the contract: insertion of each position into the
    sorted positions after it, a tie going before ([stable]) or behind the
    equal keys already placed. *)
Fixpoint insert_pos (before : number -> number -> bool)
    (x : nat * number) (l : list (nat * number)) : list (nat * number) :=
  match l with
  | [] => [x]
  | y :: t => if before (snd x) (snd y) then x :: y :: t
              else y :: insert_pos before x t
  end.

Definition argsort_by (before : number -> number -> bool) (keys : list number)
  : list nat :=
  map fst (fold_right (insert_pos before) []
             (combine (seq 0 (List.length keys)) keys)).

Definition stable_before (a b : number) : bool := precedesb a b.
Definition late_before (a b : number) : bool := negb (precedesb b a).

(** ** Line 116: the pivot table *)

Record PivotTable := mkPivot {
  pivot_index : list string;
  pivot_columns : list string;
  pivot_values : list (list Z)
}.

Definition key_eqb (a b : string * string) : bool :=
  String.eqb (fst a) (fst b) && String.eqb (snd a) (snd b).

(** The group key of a record; records with a NaN key are left out of the
    groups ([dropna=True]). *)
Definition group_key (r : Row) : option (string * string) :=
  match iso_region r, type r with
  | Some a, Some b => Some (a, b)
  | _, _ => None
  end.

(** [groupby([index, columns]).size()] *)
Definition groupby_size (keys : list (string * string))
  : list ((string * string) * Z) :=
  map (fun k => (k, Z.of_nat (List.length (filter (key_eqb k) keys))))
      (unique key_eqb keys).

Fixpoint lookup (k : string * string) (sizes : list ((string * string) * Z))
  : option Z :=
  match sizes with
  | [] => None
  | (k', v) :: t => if key_eqb k k' then Some v else lookup k t
  end.

(** [fill_value=0] *)
Definition fillna0 (c : option Z) : Z :=
  match c with Some v => v | None => 0%Z end.

(** [pd.pivot_table(data, index='iso_region', columns='type',
    aggfunc='size', fill_value=0)]: group sizes, unstacked over the sorted
    labels, holes filled. *)
Definition pivot (data : DataFrame) : PivotTable :=
  let keys := dropna (map group_key (rows data)) in
  let sizes := groupby_size keys in
  let index := StringSort.sort (unique String.eqb (map fst keys)) in
  let columns := StringSort.sort (unique String.eqb (map snd keys)) in
  mkPivot index columns
    (map (fun r => map (fun c => fillna0 (lookup (r, c) sizes)) columns) index).

Definition cell_sum (p : PivotTable) : Z :=
  fold_right Z.add 0%Z (List.concat (pivot_values p)).

(** ** Lines 126-127: centre of the map *)

(** The script computes the two means inline; a result of type [outcome]
    lets a statement say whether they are returned or raised. *)

Definition mean_coordinate (data : DataFrame) : outcome (number * number) :=
  Ok (series_mean (map latitude_deg (rows data)),
      series_mean (map longitude_deg (rows data))).

(** ** Lines 158-162: derived columns *)

Definition Qlt_bool (a b : Q) : bool := negb (Qle_bool b a).

(** [elevation > 2000] on one cell: a comparison with NaN is false. *)
Definition gt_2000 (e : number) : bool :=
  match e with
  | Some q => Qlt_bool (2000#1)%Q q
  | None => false
  end.

(** [data['name_length'] = data['name'].apply(len)] *)
Definition add_name_length (data : DataFrame) : outcome DataFrame :=
  lens <- map_outcome py_len (map name (rows data)) ;;
  Ok (mkDF (rows data) (Some lens) (high_altitude data)).

(** [data['high_altitude'] = data['elevation_ft'] > 2000] *)
Definition add_high_altitude (data : DataFrame) : DataFrame :=
  mkDF (rows data) (name_length data)
       (Some (map gt_2000 (map elevation_ft (rows data)))).

(** ** Line 92: the airports per region *)

(** [Series.value_counts()]: the distinct present values with the number of
    their occurrences, listed by [sort_values(ascending=False)] on the
    counts, again with the default [kind]. *)
Definition value_counts `{Nargsort} (col : list text) : list (string * Z) :=
  let values := dropna col in
  let keys := unique String.eqb values in
  let counts :=
    map (fun k => Z.of_nat (List.length (filter (String.eqb k) values))) keys in
  take (nargsort (map (fun c => Some (inject_Z c)) counts)) (combine keys counts).

Definition region_counts `{Nargsort} (data : DataFrame) : list (string * Z) :=
  value_counts (map iso_region (rows data)).

(** Line 94, [ax2.pie(region_counts, ...)]: matplotlib refuses a pie whose
    wedge sizes add up to zero, which for counts (each at least one) is the
    pie of no region at all. *)
Definition pie (counts : list (string * Z)) : outcome unit :=
  match counts with
  | [] => Raise ValueError
  | _ :: _ => Ok tt
  end.

(** ** The script, statement by statement *)

Inductive Page := AirportFilter | ChartsAnalysis | MapInfo.

(** What the user set in the sidebar and on the page. *)
Record Widgets := mkWidgets {
  page : Page;
  region_choice : nat;
  city_choice : nat;
  show_scheduled_only : bool
}.

(** The values a page computes. *)
Inductive View :=
| FilterView (regions : list text) (selected_region : text)
    (airports : DataFrame) (cities : list text) (selected_city : text)
    (city_filtered : DataFrame) (shown : Shown)
| ChartsView (counts : list (string * Z)) (top : DataFrame)
    (pivot_table : PivotTable)
| MapView (latitude longitude : number).

(** The module-level variables. *)
Record State := mkState {
  data : DataFrame;
  summaries : option ((nat * number) * (nat * number));
  view : option View;
  region_lengths : option (list nat)
}.

Definition loaded (df : DataFrame) : State := mkState df None None None.

(** The statements after the load, in the order of the file. *)
Inductive Stmt :=
| CallSummaries     (* lines 52-53 *)
| RenderPage        (* lines 55-155 *)
| RegionLengths     (* line 158 *)
| SetNameLength     (* line 161 *)
| SetHighAltitude.  (* line 162 *)

Definition script : list Stmt :=
  [CallSummaries; RenderPage; RegionLengths; SetNameLength; SetHighAltitude].

(** The statements that query the table. *)
Definition is_query (s : Stmt) : bool :=
  match s with
  | CallSummaries | RenderPage | RegionLengths => true
  | SetNameLength | SetHighAltitude => false
  end.

Definition has_derived (df : DataFrame) : bool :=
  notna (name_length df) && notna (high_altitude df).

Section Script.

Context {sorter : Nargsort}.

Definition render (w : Widgets) (data : DataFrame) : outcome View :=
  match page w with
  | AirportFilter =>
      regions <- region_list data ;;
      let selected_region := selectbox regions (region_choice w) in
      let airports := region_airports data selected_region in
      cities <- city_list airports ;;
      let selected_city := selectbox cities (city_choice w) in
      let airports := scheduled_only (show_scheduled_only w) airports in
      let city_filtered := city_filtered_airports airports selected_city in
      Ok (FilterView regions selected_region airports cities selected_city
            city_filtered (show_city city_filtered))
  | ChartsAnalysis =>
      let counts := region_counts data in
      _ <- pie counts ;;
      Ok (ChartsView counts (top_elev data) (pivot data))
  | MapInfo =>
      centre <- mean_coordinate data ;;
      Ok (MapView (fst centre) (snd centre))
  end.

Definition exec (w : Widgets) (s : Stmt) (st : State) : outcome State :=
  match s with
  | CallSummaries =>
      let by_default := region_summary (data st) None in
      let custom := region_summary (data st) (Some "US-MA"%string) in
      Ok (mkState (data st) (Some (by_default, custom)) (view st)
            (region_lengths st))
  | RenderPage =>
      v <- render w (data st) ;;
      Ok (mkState (data st) (summaries st) (Some v) (region_lengths st))
  | RegionLengths =>
      lens <- map_outcome py_len
                (unique cell_eqb (map iso_region (rows (data st)))) ;;
      Ok (mkState (data st) (summaries st) (view st) (Some lens))
  | SetNameLength =>
      df <- add_name_length (data st) ;;
      Ok (mkState df (summaries st) (view st) (region_lengths st))
  | SetHighAltitude =>
      Ok (mkState (add_high_altitude (data st)) (summaries st) (view st)
            (region_lengths st))
  end.

Fixpoint exec_all (w : Widgets) (ss : list Stmt) (st : State) : outcome State :=
  match ss with
  | [] => Ok st
  | s :: t => st' <- exec w s st ;; exec_all w t st'
  end.

(** The load and the first [k] statements after it. *)
Definition run_prefix (csv : read_csv_result) (w : Widgets) (k : nat)
  : outcome State :=
  df <- load csv ;; exec_all w (firstn k script) (loaded df).

Definition run (csv : read_csv_result) (w : Widgets) : outcome State :=
  run_prefix csv w (List.length script).

End Script.

(** ** Vocabulary of the statements below *)

(** One record may stand before another in the sorted table. *)
Definition by_elevation (a b : Row) : Prop :=
  precedes (elevation_ft a) (elevation_ft b).

(** Strict code-point order of strings. *)
Definition str_lt (a b : string) : Prop := String.ltb a b = true.

(** The size of the group of a key. *)
Definition group_count (keys : list (string * string)) (k : string * string) : nat :=
  List.length (filter (key_eqb k) keys).


(** A record that [pivot_table] puts in a group. *)
Definition both_present (r : Row) : bool :=
  notna (iso_region r) && notna (type r).

(** The number of records with a given (region, type) pair. *)
Definition count_pair (df : DataFrame) (r c : string) : nat :=
  List.length
    (filter (fun x => text_eqb (iso_region x) (Some r) && text_eqb (type x) (Some c))
            (rows df)).

(** ** Small tables *)

Open Scope string_scope.

Definition airport (n city region kind sched : string) (elev lat lon : Q) : Row :=
  mkRow (Some n) (Some city) (Some region) (Some kind) (Some sched)
        (Some elev) (Some lat) (Some lon).

Definition bradley : Row :=
  airport "Bradley International Airport" "Windsor Locks" "US-CT"
          "large_airport" "yes" (173#1) (419389#10000) (-726832#10000).

Definition logan : Row :=
  airport "Logan International Airport" "Boston" "US-MA"
          "large_airport" "yes" (20#1) (423643#10000) (-710052#10000).

Definition danbury : Row :=
  airport "Danbury Municipal Airport" "Danbury" "US-CT"
          "small_airport" "no" (457#1) (413715#10000) (-734822#10000).

(** Two fields of the same elevation. *)
Definition meadow : Row :=
  airport "Meadow Field" "Granby" "US-CT" "small_airport" "no"
          (457#1) (419500#10000) (-728000#10000).

(** Records with an empty cell. *)
Definition no_latitude : Row :=
  mkRow (Some "Lost Strip") (Some "Stowe") (Some "US-VT") (Some "small_airport")
        (Some "no") (Some (2500#1)%Q) None (Some (-726000#10000)%Q).

Definition no_elevation : Row :=
  mkRow (Some "Harbor Heliport") None (Some "US-MA") (Some "heliport")
        (Some "no") None (Some (423000#10000)%Q) (Some (-710000#10000)%Q).

Definition no_region : Row :=
  mkRow (Some "Unplaced Field") (Some "Nowhere") None (Some "small_airport")
        (Some "no") (Some (10#1)%Q) (Some (420000#10000)%Q) (Some (-720000#10000)%Q).

Definition no_type : Row :=
  mkRow (Some "Untyped Field") (Some "Keene") (Some "US-NH") None
        (Some "no") (Some (488#1)%Q) (Some (429000#10000)%Q) (Some (-722700#10000)%Q).

Definition sample_csv : read_csv_result :=
  CsvFrame [bradley; no_latitude; logan; no_elevation; danbury].

Definition on_page (p : Page) : Widgets := mkWidgets p 0 0 false.

(** Eleven records: two elevations held by several records each, and one
    record without elevation. *)
Definition eleven : list Row :=
  [bradley; logan; danbury; meadow; bradley; logan; danbury; meadow;
   bradley; logan; no_elevation].

Close Scope string_scope.

(** * Properties *)

(** ** Basic facts on selection *)

Lemma select_map_filter {A} (f : A -> bool) (l : list A) :
  select (map f l) l = filter f l.
Proof.
  induction l as [|x t IH]; simpl; [reflexivity|].
  destruct (f x); simpl; now rewrite IH.
Qed.

Lemma select_eq_mask (proj : Row -> text) (v : text) (l : list Row) :
  select (eq_mask (map proj l) v) l = filter (fun r => text_eqb (proj r) v) l.
Proof.
  unfold eq_mask. rewrite map_map. apply select_map_filter.
Qed.

Lemma text_eqb_eq c s : text_eqb c (Some s) = true <-> c = Some s.
Proof.
  destruct c as [a|]; simpl; [|split; discriminate].
  rewrite String.eqb_eq. split; congruence.
Qed.

Lemma in_dropna {A} (x : A) col : In x (dropna col) <-> In (Some x) col.
Proof.
  induction col as [|[a|] t IH]; simpl.
  - tauto.
  - rewrite IH. split; intros [H|H]; auto; left; congruence.
  - rewrite IH. split; [auto|]. intros [H|H]; [discriminate|auto].
Qed.

Lemma Qmax_float_cases a b :
  (Qmax_float a b = a /\ (b <= a)%Q) \/ (Qmax_float a b = b /\ (a <= b)%Q).
Proof.
  unfold Qmax_float. destruct (Qle_bool a b) eqn:E.
  - right. split; [reflexivity|]. now apply Qle_bool_iff.
  - left. split; [reflexivity|].
    destruct (Qlt_le_dec b a) as [H|H]; [now apply Qlt_le_weak|].
    apply Qle_bool_iff in H. congruence.
Qed.

Lemma fold_max_spec t : forall x,
  let m := fold_left Qmax_float t x in
  In m (x :: t) /\ forall y, In y (x :: t) -> (y <= m)%Q.
Proof.
  induction t as [|a t IH]; intros x; simpl.
  - split; [auto|]. intros y [<-|[]]. apply Qle_refl.
  - destruct (IH (Qmax_float x a)) as [Hin Hub]. simpl in Hin, Hub.
    assert (Hx : (x <= Qmax_float x a)%Q /\ (a <= Qmax_float x a)%Q).
    { destruct (Qmax_float_cases x a) as [[-> H]|[-> H]];
        split; auto; apply Qle_refl. }
    split.
    + destruct Hin as [Hin|Hin]; [|now right; right].
      rewrite <- Hin.
      destruct (Qmax_float_cases x a) as [[E _]|[E _]]; rewrite E.
      * now left.
      * now right; left.
    + intros y [<-|[<-|Hy]].
      * eapply Qle_trans; [apply Hx|]. apply Hub. now left.
      * eapply Qle_trans; [apply Hx|]. apply Hub. now left.
      * apply Hub. now right.
Qed.

Lemma series_max_none col :
  series_max col = None <-> forall q, ~ In (Some q) col.
Proof.
  unfold series_max. destruct (dropna col) as [|x t] eqn:E.
  - split; [|reflexivity]. intros _ q H. apply in_dropna in H.
    rewrite E in H. destruct H.
  - split; [discriminate|]. intros H. exfalso. apply (H x).
    apply in_dropna. rewrite E. now left.
Qed.

Lemma series_max_some col m :
  series_max col = Some m ->
  In (Some m) col /\ forall q, In (Some q) col -> (q <= m)%Q.
Proof.
  unfold series_max. destruct (dropna col) as [|x t] eqn:E; [discriminate|].
  intros [= <-]. destruct (fold_max_spec t x) as [Hin Hub]. split.
  - apply in_dropna. now rewrite E.
  - intros q Hq. apply Hub. rewrite <- E. now apply in_dropna.
Qed.

(** C1, as the code has it.  [region_summary] returns the number of records
    whose region code equals the argument together with the maximum
    elevation over that subset.  When the subset holds no elevation, which
    includes the empty subset, the maximum is the float NaN that
    [Series.max] returns ([None] here): it is returned as any other value of
    the column, with no separate sentinel and no error, and it is never
    zero. *)
Theorem region_summary_count_and_max (df : DataFrame) (region : string) :
  let subset := filter (fun r => text_eqb (iso_region r) (Some region)) (rows df) in
  let '(count, max_elev) := region_summary df (Some region) in
  (forall r, In r subset <-> In r (rows df) /\ iso_region r = Some region) /\
  count = List.length subset /\
  (subset = [] -> max_elev = None) /\
  (max_elev = None <-> forall r q, In r subset -> elevation_ft r <> Some q) /\
  (forall m, max_elev = Some m ->
     (exists r, In r subset /\ elevation_ft r = Some m) /\
     (forall r q, In r subset -> elevation_ft r = Some q -> (q <= m)%Q)).
Proof.
  simpl. unfold region_summary_at, getitem_mask; simpl.
  rewrite select_eq_mask.
  set (subset := filter _ (rows df)).
  assert (Hmem : forall r, In r subset <-> In r (rows df) /\ iso_region r = Some region).
  { intros r. unfold subset. rewrite filter_In, text_eqb_eq. tauto. }
  split; [exact Hmem|].
  split; [reflexivity|].
  split; [intros ->; reflexivity|].
  split; [split|].
  - intros Hnone r q Hr Hq. rewrite series_max_none in Hnone.
    apply (Hnone q). rewrite <- Hq. now apply in_map.
  - intros Hnone. apply series_max_none. intros q Hq.
    apply in_map_iff in Hq. destruct Hq as [r [Hq Hr]]. now apply (Hnone r q).
  - intros m Hm. apply series_max_some in Hm. destruct Hm as [Hin Hub]. split.
    + apply in_map_iff in Hin. destruct Hin as [r [H1 H2]]. now exists r.
    + intros r q Hr Hq. apply Hub. rewrite <- Hq. now apply in_map.
Qed.

(** ** The order of [sort_values] *)

Lemma precedesb_iff a b : precedesb a b = true <-> precedes a b.
Proof.
  destruct a as [x|], b as [y|]; simpl; try tauto.
  - apply Qle_bool_iff.
  - split; [discriminate|tauto].
Qed.

Lemma precedes_total a b : precedes a b \/ precedes b a.
Proof.
  destruct a as [x|], b as [y|]; simpl; auto.
  destruct (Qlt_le_dec x y) as [H|H]; [right; now apply Qlt_le_weak|now left].
Qed.

Lemma precedes_trans a b c : precedes a b -> precedes b c -> precedes a c.
Proof.
  destruct a as [x|], b as [y|], c as [z|]; simpl; try tauto.
  intros H1 H2. eapply Qle_trans; eauto.
Qed.

Lemma precedesb_false a b : precedesb a b = false -> precedes b a.
Proof.
  intros H. destruct (precedes_total a b) as [H'|H']; [|exact H'].
  apply precedesb_iff in H'. congruence.
Qed.

Lemma map_fst_combine {A B} (l : list A) : forall l' : list B,
  List.length l = List.length l' -> map fst (combine l l') = l.
Proof.
  induction l as [|x t IH]; intros [|y t']; simpl; try discriminate; auto.
  intros [= H]. now rewrite IH.
Qed.

Section InsertionIndexer.

Variable before : number -> number -> bool.
Hypothesis before_true : forall a b, before a b = true -> precedes a b.
Hypothesis before_false : forall a b, before a b = false -> precedes b a.

Let by_key (x y : nat * number) : Prop := precedes (snd x) (snd y).

Lemma insert_pos_perm x l : Permutation (insert_pos before x l) (x :: l).
Proof.
  induction l as [|y t IH]; simpl; [reflexivity|].
  destruct (before (snd x) (snd y)); [reflexivity|].
  rewrite IH. apply perm_swap.
Qed.

Lemma insertion_perm l :
  Permutation (fold_right (insert_pos before) [] l) l.
Proof.
  induction l as [|x t IH]; simpl; [reflexivity|].
  rewrite insert_pos_perm. now constructor.
Qed.

Lemma insert_pos_sorted x l :
  StronglySorted by_key l -> StronglySorted by_key (insert_pos before x l).
Proof.
  induction 1 as [|y t Hs IH Hall]; simpl.
  - repeat constructor.
  - destruct (before (snd x) (snd y)) eqn:E.
    + constructor; [now constructor|].
      apply before_true in E. constructor; [exact E|].
      eapply Forall_impl; [|exact Hall].
      intros z Hz. eapply precedes_trans; eauto.
    + constructor; [exact IH|].
      apply before_false in E.
      eapply Permutation_Forall.
      * symmetry. apply insert_pos_perm.
      * now constructor.
Qed.

Lemma insertion_sorted l :
  StronglySorted by_key (fold_right (insert_pos before) [] l).
Proof.
  induction l as [|x t IH]; simpl; [constructor|].
  now apply insert_pos_sorted.
Qed.

Lemma argsort_by_perm keys :
  Permutation (argsort_by before keys) (seq 0 (List.length keys)).
Proof.
  unfold argsort_by. rewrite insertion_perm.
  rewrite map_fst_combine; [reflexivity|]. apply length_seq.
Qed.

Lemma combine_seq_nth (keys : list number) : forall start i k,
  In (i, k) (combine (seq start (List.length keys)) keys) ->
  nth (i - start) keys None = k.
Proof.
  induction keys as [|a t IH]; intros start i k; simpl; [tauto|].
  intros [[= <- <-]|Hin].
  - now rewrite Nat.sub_diag.
  - assert (Hlt : S start <= i).
    { apply in_combine_l in Hin. apply in_seq in Hin. lia. }
    specialize (IH _ _ _ Hin).
    replace (i - start) with (S (i - S start)) by lia. exact IH.
Qed.

Lemma argsort_by_sorted keys :
  StronglySorted precedes
    (map (fun i => nth i keys None) (argsort_by before keys)).
Proof.
  unfold argsort_by.
  set (l := fold_right (insert_pos before) [] _).
  assert (Hkey : forall p, In p l -> nth (fst p) keys None = snd p).
  { intros [i k] Hp. simpl.
    apply (Permutation_in _ (insertion_perm _)) in Hp.
    apply combine_seq_nth in Hp. now rewrite Nat.sub_0_r in Hp. }
  assert (Hs : StronglySorted by_key l) by apply insertion_sorted.
  clearbody l. rewrite map_map.
  induction Hs as [|p t Hs IH Hall]; simpl; constructor.
  - apply IH. intros q Hq. apply Hkey. now right.
  - rewrite Forall_map. rewrite Forall_forall in Hall |- *.
    intros q Hq. rewrite (Hkey p (or_introl eq_refl)), (Hkey q (or_intror Hq)).
    now apply Hall.
Qed.

End InsertionIndexer.

(** A stable indexer: equal elevations stay in the order of the table. *)
#[local] Instance stable_nargsort : Nargsort := {|
  nargsort := argsort_by stable_before;
  nargsort_perm := argsort_by_perm stable_before;
  nargsort_sorted :=
    argsort_by_sorted stable_before
      (fun a b H => proj1 (precedesb_iff a b) H) precedesb_false
|}.

Lemma late_before_true a b : late_before a b = true -> precedes a b.
Proof.
  unfold late_before. intros H. apply negb_true_iff in H.
  now apply precedesb_false.
Qed.

Lemma late_before_false a b : late_before a b = false -> precedes b a.
Proof.
  unfold late_before. intros H. apply negb_false_iff in H.
  now apply precedesb_iff.
Qed.

(** An indexer that is not stable: equal elevations come out reversed. *)
#[local] Instance late_nargsort : Nargsort := {|
  nargsort := argsort_by late_before;
  nargsort_perm := argsort_by_perm late_before;
  nargsort_sorted :=
    argsort_by_sorted late_before late_before_true late_before_false
|}.

(** Any ordering of one column that is a permutation of its positions and
    puts its keys in order is the result of some indexer that meets the
    contract: the one that returns it on that column and sorts every other
    column by insertion. *)
Definition keys_eq_dec (k1 k2 : list number) : {k1 = k2} + {k1 <> k2}.
Proof. repeat decide equality. Defined.

Definition fixed_indexer (keys0 : list number) (indexer0 : list nat)
    (keys : list number) : list nat :=
  if keys_eq_dec keys keys0 then indexer0 else argsort_by stable_before keys.

Lemma fixed_indexer_perm keys0 indexer0 :
  Permutation indexer0 (seq 0 (List.length keys0)) ->
  forall keys,
    Permutation (fixed_indexer keys0 indexer0 keys) (seq 0 (List.length keys)).
Proof.
  intros H keys. unfold fixed_indexer.
  destruct (keys_eq_dec keys keys0) as [->|_]; [exact H|].
  apply (@nargsort_perm stable_nargsort).
Qed.

Lemma fixed_indexer_sorted keys0 indexer0 :
  StronglySorted precedes (map (fun i => nth i keys0 None) indexer0) ->
  forall keys,
    StronglySorted precedes
      (map (fun i => nth i keys None) (fixed_indexer keys0 indexer0 keys)).
Proof.
  intros H keys. unfold fixed_indexer.
  destruct (keys_eq_dec keys keys0) as [->|_]; [exact H|].
  apply (@nargsort_sorted stable_nargsort).
Qed.

Definition fixed_nargsort (keys0 : list number) (indexer0 : list nat)
    (Hperm : Permutation indexer0 (seq 0 (List.length keys0)))
    (Hsorted : StronglySorted precedes (map (fun i => nth i keys0 None) indexer0))
  : Nargsort := {|
  nargsort := fixed_indexer keys0 indexer0;
  nargsort_perm := fixed_indexer_perm keys0 indexer0 Hperm;
  nargsort_sorted := fixed_indexer_sorted keys0 indexer0 Hsorted
|}.

Lemma fixed_indexer_at keys0 indexer0 : fixed_indexer keys0 indexer0 keys0 = indexer0.
Proof.
  unfold fixed_indexer. destruct (keys_eq_dec keys0 keys0); [reflexivity|contradiction].
Qed.

(** ** [take], [head] and the sorted table *)

Lemma take_map_S {A} (x : A) l idx : take (map S idx) (x :: l) = take idx l.
Proof.
  unfold take. induction idx as [|i t IH]; simpl; [reflexivity|].
  now rewrite IH.
Qed.

Lemma take_seq {A} (l : list A) : take (seq 0 (List.length l)) l = l.
Proof.
  induction l as [|x t IH]; [reflexivity|].
  cbn [List.length seq]. rewrite <- seq_shift.
  change (take (0 :: map S (seq 0 (List.length t))) (x :: t))
    with (x :: take (map S (seq 0 (List.length t))) (x :: t)).
  now rewrite take_map_S, IH.
Qed.

Lemma take_perm {A} (l : list A) idx :
  Permutation idx (seq 0 (List.length l)) -> Permutation (take idx l) l.
Proof.
  intros H. rewrite <- (take_seq l) at 2. unfold take. now rewrite H.
Qed.

Lemma take_map {A B} (f : A -> B) l idx :
  map f (take idx l) = take idx (map f l).
Proof.
  unfold take. induction idx as [|i t IH]; simpl; [reflexivity|].
  rewrite map_app, IH, nth_error_map.
  now destruct (nth_error l i).
Qed.

Lemma take_nth {A} (d : A) l idx :
  Forall (fun i => i < List.length l) idx ->
  take idx l = map (fun i => nth i l d) idx.
Proof.
  unfold take. induction 1 as [|i t Hi _ IH]; simpl; [reflexivity|].
  rewrite IH. destruct (nth_error l i) eqn:E.
  - now rewrite (nth_error_nth _ _ _ E).
  - apply nth_error_None in E. lia.
Qed.

Lemma StronglySorted_map_inv {A B} (R : B -> B -> Prop) (f : A -> B) l :
  StronglySorted R (map f l) -> StronglySorted (fun a b => R (f a) (f b)) l.
Proof.
  induction l as [|x t IH]; simpl; intros H; [constructor|].
  apply StronglySorted_inv in H. destruct H as [Hs Hall].
  constructor; [now apply IH|]. now rewrite Forall_map in Hall.
Qed.

Lemma StronglySorted_app_inv {A} (R : A -> A -> Prop) l1 l2 :
  StronglySorted R (l1 ++ l2) ->
  StronglySorted R l1 /\ Forall (fun a => Forall (R a) l2) l1.
Proof.
  induction l1 as [|x t IH]; simpl; intros H.
  - split; constructor.
  - apply StronglySorted_inv in H. destruct H as [Hs Hall].
    destruct (IH Hs) as [H1 H2]. apply Forall_app in Hall.
    split; constructor; tauto.
Qed.

Lemma sort_values_elevation_perm {sorter : Nargsort} df :
  Permutation (rows (sort_values_elevation df)) (rows df).
Proof.
  unfold sort_values_elevation, df_take; cbn [rows]. apply take_perm.
  rewrite <- (length_map elevation_ft). apply nargsort_perm.
Qed.

Lemma sort_values_elevation_sorted {sorter : Nargsort} df :
  StronglySorted by_elevation (rows (sort_values_elevation df)).
Proof.
  unfold sort_values_elevation, df_take; cbn [rows].
  apply (StronglySorted_map_inv precedes elevation_ft). rewrite take_map.
  rewrite (take_nth (None : number)).
  - apply nargsort_sorted.
  - eapply Permutation_Forall; [symmetry; apply nargsort_perm|].
    apply Forall_forall. intros i Hi. now apply in_seq in Hi.
Qed.

(** C5, as the code has it.  [top_elev] is the head of the table sorted by
    elevation, highest first and missing elevations last: it has
    [min 10 |d|] records, they are in that order, and each of them precedes
    every record left out.  Which of several records of equal elevation
    comes first is left to the indexer. *)
Theorem top_elev_sorted_head (sorter : Nargsort) (df : DataFrame) :
  let top := rows (top_elev df) in
  top = firstn 10 (rows (sort_values_elevation df)) /\
  List.length top = Nat.min 10 (List.length (rows df)) /\
  StronglySorted by_elevation top /\
  exists rest,
    Permutation (top ++ rest) (rows df) /\
    Forall (fun a => Forall (by_elevation a) rest) top.
Proof.
  cbv zeta. change (rows (top_elev df))
    with (firstn 10 (rows (sort_values_elevation df))).
  pose proof (sort_values_elevation_perm df) as Hp.
  pose proof (sort_values_elevation_sorted df) as Hs.
  set (sorted := rows (sort_values_elevation df)) in *.
  rewrite <- (firstn_skipn 10 sorted) in Hs.
  apply StronglySorted_app_inv in Hs. destruct Hs as [Hs Hall].
  split; [reflexivity|]. split; [|split; [exact Hs|]].
  - rewrite length_firstn. now rewrite (Permutation_length Hp).
  - exists (skipn 10 sorted). split; [|exact Hall].
    now rewrite firstn_skipn.
Qed.

(** ** [unique] and [sorted] *)

Section Unique.

Context {A : Type} (eqb : A -> A -> bool).
Hypothesis eqb_spec : forall x y, eqb x y = true <-> x = y.

Lemma in_unique x l : In x (unique eqb l) <-> In x l.
Proof.
  induction l as [|c t IH]; simpl; [tauto|].
  rewrite filter_In, IH, negb_true_iff. split.
  - intros [H|[H _]]; auto.
  - intros [H|H]; [now left|].
    destruct (eqb c x) eqn:E; [left; now apply eqb_spec|now right].
Qed.

Lemma NoDup_unique l : NoDup (unique eqb l).
Proof.
  induction l as [|c t IH]; simpl; constructor.
  - rewrite filter_In. intros [_ H].
    rewrite (proj2 (eqb_spec c c) eq_refl) in H. discriminate.
  - now apply NoDup_filter.
Qed.

End Unique.

Lemma cell_eqb_spec a b : cell_eqb a b = true <-> a = b.
Proof.
  destruct a as [x|], b as [y|]; simpl; try (split; [discriminate|congruence]).
  - rewrite String.eqb_eq. split; congruence.
  - tauto.
Qed.

Lemma key_eqb_spec a b : key_eqb a b = true <-> a = b.
Proof.
  destruct a as [a1 a2], b as [b1 b2]. unfold key_eqb; simpl.
  rewrite andb_true_iff, !String.eqb_eq. split; [intros [-> ->]|intros [= -> ->]]; auto.
Qed.

Lemma leb_cases a b : String.leb a b = true <-> a = b \/ str_lt a b.
Proof.
  unfold str_lt, String.leb, String.ltb.
  destruct (String.compare a b) eqn:E.
  - apply String.compare_eq_iff in E. tauto.
  - tauto.
  - split; [discriminate|]. intros [H|H]; [|discriminate].
    apply String_as_OT.cmp_eq in H. unfold String_as_OT.cmp in H. congruence.
Qed.

Lemma str_lt_trans a b c : str_lt a b -> str_lt b c -> str_lt a c.
Proof.
  unfold str_lt, String.ltb. intros H1 H2.
  destruct (String.compare a b) eqn:E1; try discriminate.
  destruct (String.compare b c) eqn:E2; try discriminate.
  apply String_as_OT.cmp_lt in E1, E2.
  pose proof (String_as_OT.lt_trans _ _ _ E1 E2) as H.
  apply String_as_OT.cmp_lt in H. unfold String_as_OT.cmp in H. now rewrite H.
Qed.

Lemma str_lt_irrefl a : ~ str_lt a a.
Proof.
  unfold str_lt, String.ltb. intros H.
  destruct (String.compare a a) eqn:E; try discriminate.
  apply String_as_OT.cmp_lt in E. apply String_as_OT.lt_not_eq in E.
  apply E. reflexivity.
Qed.

Lemma leb_transitive : Transitive (fun a b => is_true (StringOrder.leb a b)).
Proof.
  intros a b c. unfold is_true, StringOrder.leb. rewrite !leb_cases.
  intros [->|H1] [->|H2]; auto. right. eapply str_lt_trans; eauto.
Qed.

Lemma sorted_NoDup_strict (l : list string) :
  StronglySorted (fun a b => is_true (StringOrder.leb a b)) l ->
  NoDup l -> StronglySorted str_lt l.
Proof.
  induction 1 as [|a t Hs IH Hall]; intros Hnd; constructor.
  - apply IH. now inversion Hnd.
  - inversion Hnd as [|? ? Hnotin _]; subst.
    rewrite Forall_forall in Hall |- *. intros b Hb.
    destruct (proj1 (leb_cases a b) (Hall b Hb)) as [->|H];
      [contradiction|exact H].
Qed.

Lemma StronglySorted_NoDup_lt (l : list string) :
  StronglySorted str_lt l -> NoDup l.
Proof.
  induction 1 as [|a t Hs IH Hall]; constructor; [|exact IH].
  intros Hin. rewrite Forall_forall in Hall.
  exact (str_lt_irrefl a (Hall a Hin)).
Qed.

(** Sorting distinct strings gives a strictly ascending list of the same
    strings. *)
Lemma sort_unique_strict (l : list string) :
  let out := StringSort.sort (unique String.eqb l) in
  StronglySorted str_lt out /\ (forall s, In s out <-> In s l).
Proof.
  cbv zeta. set (u := unique String.eqb l).
  pose proof (StringSort.Permuted_sort u) as Hp.
  split.
  - apply sorted_NoDup_strict.
    + apply StringSort.StronglySorted_sort, leb_transitive.
    + eapply Permutation_NoDup; [exact Hp|]. apply NoDup_unique, String.eqb_eq.
  - intros s. rewrite <- (in_unique String.eqb String.eqb_eq s l). fold u.
    split; intros H.
    + eapply Permutation_in; [symmetry; exact Hp|exact H].
    + eapply Permutation_in; [exact Hp|exact H].
Qed.

Lemma dropna_map_Some {A} (l : list A) : dropna (map Some l) = l.
Proof. induction l as [|x t IH]; simpl; congruence. Qed.

Lemma forallb_notna_map_Some {A} (l : list A) : forallb notna (map Some l) = true.
Proof. induction l as [|x t IH]; simpl; auto. Qed.

Lemma forallb_notna_dropna {A} (l : list (option A)) :
  forallb notna l = true -> map Some (dropna l) = l.
Proof.
  induction l as [|[x|] t IH]; simpl; try discriminate; auto.
  intros H. now rewrite IH.
Qed.

(** The municipalities of a region, line 64: [dropna] comes before
    [unique], so [sorted] sees strings only and the list is the distinct
    present municipalities, strictly ascending. *)
Lemma city_list_distinct_sorted (airports : DataFrame) :
  exists cities,
    city_list airports = Ok (map Some cities) /\
    StronglySorted str_lt cities /\
    (forall s, In s cities <->
               exists r, In r (rows airports) /\ municipality r = Some s).
Proof.
  unfold city_list, py_sorted.
  rewrite forallb_notna_map_Some, dropna_map_Some.
  set (col := dropna (map municipality (rows airports))).
  exists (StringSort.sort (unique String.eqb col)).
  destruct (sort_unique_strict col) as [Hs Hin].
  split; [reflexivity|]. split; [exact Hs|].
  intros s. rewrite Hin. unfold col. rewrite in_dropna, in_map_iff.
  split; intros [r [H1 H2]]; exists r; tauto.
Qed.

(** The regions, line 60, when no record lacks its region code. *)
Lemma region_list_distinct_sorted (data : DataFrame) :
  forallb notna (map iso_region (rows data)) = true ->
  exists regions,
    region_list data = Ok (map Some regions) /\
    StronglySorted str_lt regions /\
    (forall s, In s regions <->
               exists r, In r (rows data) /\ iso_region r = Some s).
Proof.
  intros Hall. unfold region_list, py_sorted.
  set (col := map iso_region (rows data)) in *.
  pose proof (forallb_notna_dropna col Hall) as Hcol.
  assert (Hu : unique cell_eqb col = map Some (unique String.eqb (dropna col))).
  { rewrite <- Hcol at 1. generalize (dropna col). clear.
    induction l as [|x t IH]; simpl; [reflexivity|].
    rewrite IH. f_equal. clear. induction (unique String.eqb t) as [|y u IH];
      simpl; [reflexivity|]. destruct (negb (x =? y)%string); simpl; now rewrite IH. }
  rewrite Hu, forallb_notna_map_Some, dropna_map_Some.
  exists (StringSort.sort (unique String.eqb (dropna col))).
  destruct (sort_unique_strict (dropna col)) as [Hs Hin].
  split; [reflexivity|]. split; [exact Hs|].
  intros s. rewrite Hin. unfold col. rewrite in_dropna, in_map_iff.
  split; intros [r [H1 H2]]; exists r; tauto.
Qed.

(** ** Counting by groups *)

Lemma list_sum_map_add {B} (g h : B -> nat) (L : list B) :
  list_sum (map (fun u => g u + h u) L) = list_sum (map g L) + list_sum (map h L).
Proof.
  induction L as [|u L IH]; simpl; [reflexivity|]. rewrite IH. lia.
Qed.

Section CountPartition.

Context {A B : Type} (eqb : B -> B -> bool) (f : A -> B).
Hypothesis eqb_spec : forall x y, eqb x y = true <-> x = y.

Lemma count_one (v : B) (L : list B) :
  NoDup L -> In v L ->
  list_sum (map (fun u => if eqb u v then 1 else 0) L) = 1.
Proof.
  induction 1 as [|u t Hnotin Hnd IH]; simpl; [tauto|].
  intros [->|Hin].
  - rewrite (proj2 (eqb_spec v v) eq_refl).
    replace (list_sum _) with 0; [reflexivity|].
    symmetry. clear IH Hnd. induction t as [|w t IH]; simpl; [reflexivity|].
    destruct (eqb w v) eqn:E.
    + apply eqb_spec in E. subst. exfalso. apply Hnotin. now left.
    + apply IH. intros H. apply Hnotin. now right.
  - destruct (eqb u v) eqn:E.
    + apply eqb_spec in E. subst. contradiction.
    + now rewrite IH.
Qed.

Lemma count_partition (l : list A) (L : list B) :
  NoDup L -> (forall x, In x l -> In (f x) L) ->
  list_sum (map (fun u => List.length (filter (fun x => eqb u (f x)) l)) L)
  = List.length l.
Proof.
  intros Hnd. induction l as [|x t IH]; intros Hin.
  - simpl. clear. induction L; simpl; auto.
  - transitivity
      (list_sum (map (fun u => if eqb u (f x) then 1 else 0) L)
       + list_sum (map (fun u => List.length (filter (fun y => eqb u (f y)) t)) L)).
    + rewrite <- list_sum_map_add. f_equal. apply map_ext. intros u.
      cbn [filter]. destruct (eqb u (f x)); reflexivity.
    + rewrite (count_one (f x) L Hnd (Hin x (or_introl eq_refl))).
      rewrite (IH (fun y Hy => Hin y (or_intror Hy))). reflexivity.
Qed.

End CountPartition.

Lemma lookup_groupby_size keys k :
  fillna0 (lookup k (groupby_size keys)) = Z.of_nat (group_count keys k).
Proof.
  unfold groupby_size, group_count.
  assert (Hgen : forall L,
    lookup k (map (fun k' => (k', Z.of_nat (List.length (filter (key_eqb k') keys)))) L)
    = if existsb (key_eqb k) L
      then Some (Z.of_nat (List.length (filter (key_eqb k) keys))) else None).
  { induction L as [|k' L IH]; simpl; [reflexivity|].
    destruct (key_eqb k k') eqn:E; simpl; [|exact IH].
    apply key_eqb_spec in E. now subst. }
  rewrite Hgen. destruct (existsb _ _) eqn:E; [reflexivity|]. simpl.
  assert (Hnil : forall l, (forall k', In k' l -> key_eqb k k' = false) ->
                 filter (key_eqb k) l = []).
  { induction l as [|k' l IH]; simpl; intros H; [reflexivity|].
    rewrite (H k' (or_introl eq_refl)). apply IH. intros; apply H; now right. }
  rewrite Hnil; [reflexivity|]. intros k' Hk'.
  destruct (key_eqb k k') eqn:E'; [|reflexivity].
  apply key_eqb_spec in E'. subst k'.
  assert (Hex : existsb (key_eqb k) (unique key_eqb keys) = true).
  { apply existsb_exists. exists k. split.
    - now apply (in_unique key_eqb key_eqb_spec).
    - now apply key_eqb_spec. }
  congruence.
Qed.

Lemma sum_cells (h : string -> string -> nat) cols index :
  fold_right Z.add 0%Z
    (List.concat (map (fun r => map (fun c => Z.of_nat (h r c)) cols) index))
  = Z.of_nat (list_sum (map (fun r => list_sum (map (h r) cols)) index)).
Proof.
  induction index as [|r t IH]; simpl; [reflexivity|].
  rewrite fold_right_app, IH, Nat2Z.inj_add.
  generalize (Z.of_nat (list_sum (map (fun r0 => list_sum (map (h r0) cols)) t))).
  intros z. clear IH. induction cols as [|c cols IHc]; simpl; [reflexivity|].
  rewrite IHc, Nat2Z.inj_add. lia.
Qed.

Lemma group_count_total keys index cols :
  NoDup index -> NoDup cols ->
  (forall k, In k keys -> In (fst k) index /\ In (snd k) cols) ->
  list_sum (map (fun r => list_sum (map (fun c => group_count keys (r, c)) cols)) index)
  = List.length keys.
Proof.
  intros Hi Hc Hin.
  rewrite <- (count_partition String.eqb fst String.eqb_eq keys index Hi
                (fun k Hk => proj1 (Hin k Hk))).
  f_equal. apply map_ext. intros r.
  set (keys_r := filter (fun x => (r =? fst x)%string) keys).
  rewrite <- (count_partition String.eqb snd String.eqb_eq keys_r cols Hc).
  - f_equal. apply map_ext. intros c. unfold group_count, keys_r. f_equal.
    clear. induction keys as [|k t IH]; simpl; [reflexivity|].
    unfold key_eqb at 1. simpl.
    destruct (r =? fst k)%string; simpl; [|exact IH].
    destruct (c =? snd k)%string; simpl; now rewrite IH.
  - intros k Hk. apply filter_In in Hk. now apply Hin.
Qed.

Lemma group_keys_length l :
  List.length (dropna (map group_key l)) = List.length (filter both_present l).
Proof.
  induction l as [|x t IH]; simpl; [reflexivity|].
  unfold group_key, both_present.
  destruct (iso_region x), (type x); simpl; auto.
Qed.

Lemma in_group_keys l a b :
  In (a, b) (dropna (map group_key l)) <->
  exists x, In x l /\ iso_region x = Some a /\ type x = Some b.
Proof.
  rewrite in_dropna, in_map_iff. unfold group_key.
  split; intros [x H]; exists x.
  - destruct H as [H Hx]. destruct (iso_region x), (type x); try discriminate.
    injection H as -> ->. auto.
  - destruct H as [Hx [-> ->]]. auto.
Qed.

Lemma group_count_pair df r c :
  group_count (dropna (map group_key (rows df))) (r, c) = count_pair df r c.
Proof.
  unfold group_count, count_pair.
  induction (rows df) as [|x t IH]; simpl; [reflexivity|].
  unfold group_key at 1.
  destruct (iso_region x) as [a|], (type x) as [b|]; simpl; auto.
  - unfold key_eqb at 1. simpl.
    rewrite (String.eqb_sym r a), (String.eqb_sym c b).
    destruct (a =? r)%string, (b =? c)%string; simpl; now rewrite IH.
  - now rewrite andb_false_r.
Qed.

Lemma Forall2_map_self {A B} (P : A -> B -> Prop) (f : A -> B) (l : list A) :
  (forall x, P x (f x)) -> Forall2 P l (map f l).
Proof. intros H. induction l; simpl; constructor; auto. Qed.

Lemma pivot_labels (proj : Row -> text) (side : string * string -> string) df :
  (forall x a b, group_key x = Some (a, b) -> proj x = Some (side (a, b))) ->
  (forall x, both_present x = true -> exists k, group_key x = Some k) ->
  (forall x k, group_key x = Some k -> both_present x = true) ->
  let labels := StringSort.sort
    (unique String.eqb (map side (dropna (map group_key (rows df))))) in
  StronglySorted str_lt labels /\
  (forall s, In s labels <->
     exists x, In x (filter both_present (rows df)) /\ proj x = Some s).
Proof.
  intros Hproj Hsome Hboth. cbv zeta.
  destruct (sort_unique_strict (map side (dropna (map group_key (rows df)))))
    as [Hs Hin].
  split; [exact Hs|]. intros s. rewrite Hin, in_map_iff. split.
  - intros [[a b] [<- Hk]]. apply in_dropna, in_map_iff in Hk.
    destruct Hk as [x [Hx Hrow]]. exists x. split.
    + apply filter_In. split; [exact Hrow|]. eapply Hboth; eauto.
    + eapply Hproj; eauto.
  - intros [x [Hx Hs']]. apply filter_In in Hx. destruct Hx as [Hrow Hb].
    destruct (Hsome x Hb) as [[a b] Hk]. exists (a, b). split.
    + pose proof (Hproj x a b Hk) as H. congruence.
    + apply in_dropna, in_map_iff. now exists x.
Qed.

Lemma group_key_both x k : group_key x = Some k -> both_present x = true.
Proof.
  unfold group_key, both_present.
  destruct (iso_region x), (type x); simpl; auto; discriminate.
Qed.

Lemma both_group_key x : both_present x = true -> exists k, group_key x = Some k.
Proof.
  unfold group_key, both_present.
  destruct (iso_region x), (type x); simpl; try discriminate; eauto.
Qed.

Lemma pivot_cell_count df r c :
  fillna0 (lookup (r, c) (groupby_size (dropna (map group_key (rows df)))))
  = Z.of_nat (count_pair df r c).
Proof. now rewrite lookup_groupby_size, group_count_pair. Qed.

(** C6, as the code has it.  The pivot table is a dense grid over the
    region codes and the types of the records that have both: the labels
    are distinct and ascending, every cell holds the number of records with
    its (region, type) pair, which is 0 for a pair no record has, no cell is
    negative, and the cells add up to the number of records that have both
    a region code and a type. *)
Theorem pivot_dense_counts (df : DataFrame) :
  let p := pivot df in
  let kept := filter both_present (rows df) in
  (StronglySorted str_lt (pivot_index p) /\
   forall r, In r (pivot_index p) <->
             exists x, In x kept /\ iso_region x = Some r) /\
  (StronglySorted str_lt (pivot_columns p) /\
   forall c, In c (pivot_columns p) <->
             exists x, In x kept /\ type x = Some c) /\
  Forall2 (fun r cells =>
             Forall2 (fun c v => v = Z.of_nat (count_pair df r c))
                     (pivot_columns p) cells)
          (pivot_index p) (pivot_values p) /\
  Forall (Forall (fun v => (0 <= v)%Z)) (pivot_values p) /\
  cell_sum p = Z.of_nat (List.length kept).
Proof.
  cbv zeta. unfold pivot, cell_sum; cbn [pivot_index pivot_columns pivot_values].
  set (keys := dropna (map group_key (rows df))).
  assert (Hidx := pivot_labels iso_region fst df).
  assert (Hcol := pivot_labels type snd df).
  cbv zeta in Hidx, Hcol. fold keys in Hidx, Hcol.
  set (index := StringSort.sort (unique String.eqb (map fst keys))) in *.
  set (columns := StringSort.sort (unique String.eqb (map snd keys))) in *.
  assert (Hkey : forall (proj : Row -> text) side,
            (proj = iso_region /\ side = @fst string string) \/
            (proj = type /\ side = @snd string string) ->
            forall x a b, group_key x = Some (a, b) -> proj x = Some (side (a, b))).
  { intros proj side Hps x a b. unfold group_key.
    destruct (iso_region x) eqn:E1, (type x) eqn:E2; try discriminate.
    intros [= <- <-]. destruct Hps as [[-> ->]|[-> ->]]; simpl; congruence. }
  specialize (Hidx (Hkey _ _ (or_introl (conj eq_refl eq_refl)))
                   both_group_key group_key_both).
  specialize (Hcol (Hkey _ _ (or_intror (conj eq_refl eq_refl)))
                   both_group_key group_key_both).
  split; [exact Hidx|]. split; [exact Hcol|]. split; [|split].
  - apply Forall2_map_self. intros r. apply Forall2_map_self. intros c.
    apply pivot_cell_count.
  - apply Forall_map, Forall_forall. intros r _.
    apply Forall_map, Forall_forall. intros c _.
    fold keys. rewrite lookup_groupby_size. apply Nat2Z.is_nonneg.
  - rewrite (map_ext _ (fun r => map (fun c => Z.of_nat (group_count keys (r, c))) columns)).
    + rewrite sum_cells, group_count_total.
      * unfold keys. now rewrite group_keys_length.
      * apply (@StronglySorted_NoDup_lt index), Hidx.
      * apply (@StronglySorted_NoDup_lt columns), Hcol.
      * intros [a b] Hk. simpl. split.
        -- apply Hidx. apply in_group_keys in Hk. destruct Hk as [x [Hx [Ha Hb]]].
           exists x. split; [|exact Ha]. apply filter_In. split; [exact Hx|].
           unfold both_present. now rewrite Ha, Hb.
        -- apply Hcol. apply in_group_keys in Hk. destruct Hk as [x [Hx [Ha Hb]]].
           exists x. split; [|exact Hb]. apply filter_In. split; [exact Hx|].
           unfold both_present. now rewrite Ha, Hb.
    + intros r. apply map_ext. intros c. apply lookup_groupby_size.
Qed.

(** ** The mean of a column *)

Lemma mean_of_one (x : Q) :
  Qdiv (Qplus (0#1) x) (inject_Z (Z.of_nat 1)) = x.
Proof.
  destruct x as [n d]. unfold Qdiv, Qmult, Qplus, Qinv, inject_Z; simpl.
  rewrite !Z.mul_1_r, Pos.mul_1_r. reflexivity.
Qed.

Lemma series_mean_single (c : number) : series_mean [c] = c.
Proof.
  destruct c as [x|]; [|reflexivity].
  unfold series_mean; simpl dropna. cbn [fold_left List.length].
  now rewrite mean_of_one.
Qed.

(** C2, as the code has it.  The mean of the coordinates of a table without
    records is the pair of NaN, returned and not raised; on a table of one
    record it is exactly the latitude and the longitude of that record. *)
Theorem mean_coordinate_empty_and_single :
  (forall lens flags, mean_coordinate (mkDF [] lens flags) = Ok (None, None)) /\
  (forall r lens flags,
     mean_coordinate (mkDF [r] lens flags)
     = Ok (latitude_deg r, longitude_deg r)).
Proof.
  split; [reflexivity|]. intros r lens flags.
  unfold mean_coordinate; cbn [rows map]. now rewrite !series_mean_single.
Qed.

(** ** The filters of the page "Airport Filter" *)

Lemma rows_region_airports data v :
  rows (region_airports data v)
  = filter (fun r => text_eqb (iso_region r) v) (rows data).
Proof. unfold region_airports, getitem_mask; cbn [rows]. apply select_eq_mask. Qed.

Lemma rows_scheduled_only show df :
  rows (scheduled_only show df)
  = filter (fun r => negb show || text_eqb (scheduled_service r) (Some "yes"%string))
           (rows df).
Proof.
  destruct show; simpl.
  - apply select_eq_mask.
  - induction (rows df) as [|x t IH]; simpl; congruence.
Qed.

Lemma rows_city_filtered_airports df v :
  rows (city_filtered_airports df v)
  = filter (fun r => text_eqb (municipality r) v) (rows df).
Proof.
  unfold city_filtered_airports, getitem_mask; cbn [rows]. apply select_eq_mask.
Qed.

Lemma filter_twice {A} (f g : A -> bool) (l : list A) :
  filter f (filter g l) = filter (fun x => g x && f x) l.
Proof.
  induction l as [|x t IH]; simpl; [reflexivity|].
  destruct (g x); simpl; [destruct (f x)|]; now rewrite IH.
Qed.

(** C9.  The records shown for a region and a city are records of the
    region: they are the records of the region-only filter that also match
    the city (and the scheduled-service box when it is ticked), in the same
    order.  No filter raises; when nothing matches the result is the empty
    table and the page says so. *)
Theorem city_filter_within_region_filter
    (data : DataFrame) (selected_region selected_city : text) (show : bool) :
  let by_region := region_airports data selected_region in
  let by_both :=
    city_filtered_airports (scheduled_only show by_region) selected_city in
  rows by_both
  = filter (fun r => (negb show || text_eqb (scheduled_service r) (Some "yes"%string))
                     && text_eqb (municipality r) selected_city)
           (rows by_region) /\
  incl (rows by_both) (rows by_region) /\
  (forall r, In r (rows by_region) <->
             In r (rows data) /\ text_eqb (iso_region r) selected_region = true) /\
  (forall r, In r (rows (city_filtered_airports by_region selected_city)) <->
             In r (rows data) /\ text_eqb (iso_region r) selected_region = true
             /\ text_eqb (municipality r) selected_city = true) /\
  (rows by_region = [] -> rows by_both = []) /\
  (rows by_both = [] ->
   show_city by_both = ShowText "No airports found in this city.").
Proof.
  cbv zeta.
  rewrite rows_city_filtered_airports, rows_scheduled_only, filter_twice.
  split; [reflexivity|]. split; [apply incl_filter|]. split; [|split; [|split]].
  - intros r. rewrite rows_region_airports, filter_In. tauto.
  - intros r. rewrite rows_city_filtered_airports, rows_region_airports.
    rewrite !filter_In. tauto.
  - intros ->. reflexivity.
  - intros H. unfold show_city, empty.
    rewrite rows_city_filtered_airports, rows_scheduled_only, filter_twice, H.
    reflexivity.
Qed.

(** ** The derived columns *)

Lemma gt_2000_spec (e : number) :
  gt_2000 e = true <-> exists q, e = Some q /\ (2000#1 < q)%Q.
Proof.
  destruct e as [q|]; simpl.
  - unfold Qlt_bool. rewrite negb_true_iff. split.
    + intros H. exists q. split; [reflexivity|].
      destruct (Qlt_le_dec (2000#1) q) as [Hlt|Hle]; [exact Hlt|].
      apply Qle_bool_iff in Hle. congruence.
    + intros [q' [[= <-] Hlt]].
      destruct (Qle_bool q (2000#1)) eqn:E; [|reflexivity].
      apply Qle_bool_iff in E. exfalso. exact (Qlt_not_le _ _ Hlt E).
  - split; [discriminate|]. intros [q [H _]]. discriminate.
Qed.

(** C10.  [high_altitude] is a column of booleans, one per record, never
    missing and never an error; the flag of a record without elevation is
    false, and a flag is true exactly when the elevation is present and
    above 2000. *)
Theorem high_altitude_missing_elevation_false (df : DataFrame) :
  exists flags,
    high_altitude (add_high_altitude df) = Some flags /\
    rows (add_high_altitude df) = rows df /\
    Forall2 (fun r flag =>
               (elevation_ft r = None -> flag = false) /\
               (flag = true <->
                exists q, elevation_ft r = Some q /\ (2000#1 < q)%Q))
            (rows df) flags.
Proof.
  exists (map gt_2000 (map elevation_ft (rows df))).
  split; [reflexivity|]. split; [reflexivity|].
  rewrite map_map. apply Forall2_map_self. intros r. split.
  - intros ->. reflexivity.
  - apply gt_2000_spec.
Qed.

(** ** The run of the script *)

Lemma bind_ok {A B} (m : outcome A) (k : A -> outcome B) (b : B) :
  bind m k = Ok b -> exists a, m = Ok a /\ k a = Ok b.
Proof. destruct m; simpl; try discriminate. eauto. Qed.

Lemma load_ok csv df :
  load csv = Ok df ->
  exists records,
    csv = CsvFrame records /\
    df = from_rows (filter coords_present records).
Proof.
  destruct csv as [records| |e]; simpl; try discriminate.
  intros [= <-]. exists records. split; [reflexivity|].
  unfold dropna_coords, getitem_mask, from_rows; cbn [rows name_length high_altitude option_map].
  now rewrite select_map_filter.
Qed.

Lemma map_outcome_py_len cells lens :
  map_outcome py_len cells = Ok lens ->
  exists names, cells = map Some names /\ lens = map String.length names.
Proof.
  revert lens. induction cells as [|[s|] t IH]; simpl; intros lens H.
  - injection H as <-. now exists [].
  - apply bind_ok in H. destruct H as [ys [Hys [= <-]]].
    destruct (IH _ Hys) as [names [-> ->]]. now exists (s :: names).
  - discriminate.
Qed.

Section ScriptFacts.

Context {sorter : Nargsort}.

Lemma exec_rows w s st st' :
  exec w s st = Ok st' -> rows (data st') = rows (data st).
Proof.
  destruct s; simpl; intros H.
  - now injection H as <-.
  - apply bind_ok in H. destruct H as [v [_ [= <-]]]. reflexivity.
  - apply bind_ok in H. destruct H as [v [_ [= <-]]]. reflexivity.
  - apply bind_ok in H. destruct H as [df [Hdf [= <-]]]. simpl.
    unfold add_name_length in Hdf. apply bind_ok in Hdf.
    destruct Hdf as [lens [_ [= <-]]]. reflexivity.
  - now injection H as <-.
Qed.

Lemma exec_query_data w s st st' :
  is_query s = true -> exec w s st = Ok st' -> data st' = data st.
Proof.
  destruct s; simpl; try discriminate; intros _ H.
  - now injection H as <-.
  - apply bind_ok in H. destruct H as [v [_ [= <-]]]. reflexivity.
  - apply bind_ok in H. destruct H as [v [_ [= <-]]]. reflexivity.
Qed.

Lemma exec_all_rows w ss : forall st st',
  exec_all w ss st = Ok st' -> rows (data st') = rows (data st).
Proof.
  induction ss as [|s t IH]; simpl; intros st st' H.
  - now injection H as <-.
  - apply bind_ok in H. destruct H as [st1 [H1 H2]].
    rewrite (IH _ _ H2). eapply exec_rows; eauto.
Qed.

Lemma exec_all_queries_data w ss : forall st st',
  forallb is_query ss = true ->
  exec_all w ss st = Ok st' -> data st' = data st.
Proof.
  induction ss as [|s t IH]; simpl; intros st st' Hq H.
  - now injection H as <-.
  - apply andb_true_iff in Hq. destruct Hq as [Hs Ht].
    apply bind_ok in H. destruct H as [st1 [H1 H2]].
    rewrite (IH _ _ Ht H2). eapply exec_query_data; eauto.
Qed.

Lemma exec_all_app w ss1 ss2 st :
  exec_all w (ss1 ++ ss2) st
  = bind (exec_all w ss1 st) (exec_all w ss2).
Proof.
  revert st. induction ss1 as [|s t IH]; simpl; intros st; [reflexivity|].
  destruct (exec w s st); simpl; auto.
Qed.

End ScriptFacts.

(** C3.  Whenever the load and any number of the statements after it have
    run, every record of [data] has its latitude and its longitude: the
    records are those of the CSV that have both, and no statement removes,
    adds or changes a record.  A statement that queries the table leaves
    [data] as it found it. *)
Theorem coordinates_after_load
    (sorter : Nargsort) (csv : read_csv_result) (w : Widgets) (k : nat) (st : State) :
  run_prefix csv w k = Ok st ->
  Forall (fun r => exists lat lon,
            latitude_deg r = Some lat /\ longitude_deg r = Some lon)
         (rows (data st)) /\
  (exists records, csv = CsvFrame records /\
                   rows (data st) = filter coords_present records) /\
  (forall s st', is_query s = true -> exec w s st = Ok st' -> data st' = data st) /\
  (forall s st', exec w s st = Ok st' -> rows (data st') = rows (data st)).
Proof.
  unfold run_prefix. intros H. apply bind_ok in H.
  destruct H as [df [Hload Hrun]].
  apply load_ok in Hload. destruct Hload as [records [-> ->]].
  apply exec_all_rows in Hrun. cbn [loaded data from_rows rows] in Hrun.
  split; [|split; [|split]].
  - rewrite Hrun. apply Forall_forall. intros r Hr.
    apply filter_In in Hr. destruct Hr as [_ Hr].
    unfold coords_present in Hr.
    destruct (latitude_deg r) as [lat|], (longitude_deg r) as [lon|];
      try discriminate. eauto.
  - now exists records.
  - intros s st'. apply exec_query_data.
  - intros s st'. apply exec_rows.
Qed.



Lemma loaded_no_derived csv df :
  load csv = Ok df -> name_length df = None /\ high_altitude df = None.
Proof.
  intros H. apply load_ok in H. destruct H as [records [_ ->]]. now split.
Qed.

(** C4, as the code has it.  The two statements that add [name_length] and
    [high_altitude] are the last two of the script, each once, after every
    statement that queries the table.  So a query of the run meets a table
    without the two columns; and at the end of a run that completes every
    record has its name, [name_length] holds the number of characters of
    each name and [high_altitude] holds, for each record, whether its
    elevation is above 2000. *)
Theorem derived_columns_come_last
    (sorter : Nargsort) (csv : read_csv_result) (w : Widgets) :
  (exists queries,
     script = queries ++ [SetNameLength; SetHighAltitude] /\
     forallb is_query queries = true) /\
  (forall k s st,
     nth_error script k = Some s -> is_query s = true ->
     run_prefix csv w k = Ok st ->
     name_length (data st) = None /\ high_altitude (data st) = None) /\
  (forall st,
     run csv w = Ok st ->
     exists names,
       map name (rows (data st)) = map Some names /\
       name_length (data st) = Some (map String.length names) /\
       high_altitude (data st)
       = Some (map (fun r => gt_2000 (elevation_ft r)) (rows (data st)))).
Proof.
  split; [|split].
  - exists [CallSummaries; RenderPage; RegionLengths]. now split.
  - intros k s st Hs Hq Hrun. unfold run_prefix in Hrun.
    apply bind_ok in Hrun. destruct Hrun as [df [Hload Hrun]].
    assert (Hpre : forallb is_query (firstn k script) = true).
    { do 3 (destruct k as [|k]; [reflexivity|]).
      do 2 (destruct k as [|k]; [simpl in Hs; injection Hs as <-; discriminate|]).
      destruct k; discriminate. }
    rewrite (exec_all_queries_data _ _ _ _ Hpre Hrun). cbn [loaded data].
    eapply loaded_no_derived; eauto.
  - intros st Hrun. unfold run, run_prefix in Hrun.
    apply bind_ok in Hrun. destruct Hrun as [df [Hload Hrun]].
    change (firstn (List.length script) script)
      with ([CallSummaries; RenderPage; RegionLengths]
            ++ [SetNameLength; SetHighAltitude]) in Hrun.
    rewrite exec_all_app in Hrun. apply bind_ok in Hrun.
    destruct Hrun as [st1 [H1 H2]].
    apply exec_all_queries_data in H1; [|reflexivity]. cbn [loaded data] in H1.
    cbn [exec_all exec] in H2. apply bind_ok in H2.
    destruct H2 as [st2 [H2 H3]]. apply bind_ok in H2.
    destruct H2 as [df2 [H2 [= <-]]]. cbn [bind data summaries view region_lengths] in H3.
    injection H3 as <-. cbn [data].
    unfold add_name_length in H2. apply bind_ok in H2.
    destruct H2 as [lens [Hlens [= <-]]].
    apply map_outcome_py_len in Hlens. destruct Hlens as [names [Hnames ->]].
    exists names. cbn [add_high_altitude rows name_length high_altitude].
    rewrite map_map. now split.
Qed.

(** * Runs on small tables *)

Open Scope string_scope.

(** The state at the end of the run of the page "Airport Filter". *)
Definition sample_final : State :=
  Eval vm_compute in
    match @run stable_nargsort sample_csv (on_page AirportFilter) with
    | Ok st => st
    | _ => loaded (from_rows [])
    end.

Example sample_run_completes :
  @run stable_nargsort sample_csv (on_page AirportFilter) = Ok sample_final.
Proof. vm_compute. reflexivity. Qed.

Example sample_summaries :
  summaries sample_final
  = Some ((2, Some (457#1)%Q), (2, Some (20#1)%Q)).
Proof. vm_compute. reflexivity. Qed.

Example sample_derived_columns :
  name_length (data sample_final) = Some [29; 27; 15; 25] /\
  high_altitude (data sample_final) = Some [false; false; false; false].
Proof. vm_compute. split; reflexivity. Qed.

Example sample_charts_page_runs :
  exists st, @run stable_nargsort sample_csv (on_page ChartsAnalysis) = Ok st /\
    option_map (fun v => match v with
                         | ChartsView _ top p =>
                             (map name (rows top), pivot_index p, pivot_columns p,
                              pivot_values p)
                         | _ => ([], [], [], [])
                         end) (view st)
    = Some ([Some "Danbury Municipal Airport"; Some "Bradley International Airport";
             Some "Logan International Airport"; Some "Harbor Heliport"],
            ["US-CT"; "US-MA"],
            ["heliport"; "large_airport"; "small_airport"],
            [[0; 1; 1]; [1; 1; 0]]%Z)%string.
Proof. eexists. split; [lazy; reflexivity|]. vm_compute. reflexivity. Qed.

Example run_stops_without_file :
  @run stable_nargsort CsvFileNotFound (on_page MapInfo)
  = Stop "The dataset file could not be found. Please ensure 'new_england_airports.csv' is in the correct location.".
Proof. reflexivity. Qed.

Example run_raises_on_missing_name :
  @run stable_nargsort
     (CsvFrame [mkRow None None (Some "US-RI") (Some "heliport") (Some "no")
                  None (Some (41#1)%Q) (Some (-71#1)%Q)])
     (on_page MapInfo)
  = Raise TypeError.
Proof. vm_compute. reflexivity. Qed.

(** Three records in region "A" with elevations 100, 200, 300 and two in
    region "B". *)
Example region_summary_three_and_two :
  let rec_of region elev :=
    airport "n" "c" region "small_airport" "no" elev (42#1) (-72#1) in
  let d := from_rows [rec_of "A" (100#1); rec_of "B" (50#1); rec_of "A" (300#1);
                      rec_of "A" (200#1); rec_of "B" (60#1)]%Q in
  region_summary d (Some "A") = (3, Some (300#1)%Q) /\
  region_summary d (Some "C") = (0, None) /\
  region_summary d None = (0, None).
Proof. vm_compute. repeat split. Qed.

Example map_page_centre_of_one_record :
  exists st, @run stable_nargsort (CsvFrame [logan]) (on_page MapInfo) = Ok st /\
    view st = Some (MapView (latitude_deg logan) (longitude_deg logan)).
Proof. eexists. split; [lazy; reflexivity|]. reflexivity. Qed.

(** Witness of C3: the run above. *)
Lemma coordinates_after_load_witness :
  Forall (fun r => exists lat lon,
            latitude_deg r = Some lat /\ longitude_deg r = Some lon)
         (rows (data sample_final)) /\
  (exists records, sample_csv = CsvFrame records /\
                   rows (data sample_final) = filter coords_present records) /\
  (forall s st', is_query s = true ->
                 @exec stable_nargsort (on_page AirportFilter) s sample_final = Ok st' ->
                 data st' = data sample_final) /\
  (forall s st', @exec stable_nargsort (on_page AirportFilter) s sample_final = Ok st' ->
                 rows (data st') = rows (data sample_final)).
Proof.
  apply (coordinates_after_load stable_nargsort sample_csv
           (on_page AirportFilter) (List.length script) sample_final).
  vm_compute. reflexivity.
Defined.

(** C2 as stated fails: on a table without records the script gets the pair
    of NaN back and no exception. *)
Lemma mean_coordinate_empty_returns_nan :
  mean_coordinate (from_rows []) = Ok (None, None).
Proof. reflexivity. Qed.

(** C4 as stated fails: the first statement after the load calls
    [region_summary], and the table it is given has no derived column; the
    table still has none when the page has been rendered. *)
Lemma queries_run_before_derived_columns :
  exists st0 st2,
    @run_prefix stable_nargsort sample_csv (on_page AirportFilter) 0 = Ok st0 /\
    nth_error script 0 = Some CallSummaries /\
    is_query CallSummaries = true /\
    has_derived (data st0) = false /\
    @run_prefix stable_nargsort sample_csv (on_page AirportFilter) 2 = Ok st2 /\
    has_derived (data st2) = false.
Proof.
  eexists. eexists. split; [lazy; reflexivity|].
  split; [reflexivity|]. split; [reflexivity|]. split; [reflexivity|].
  split; [lazy; reflexivity|]. reflexivity.
Qed.

(** C5 as stated fails at the table of eleven records.  A stable sort
    returns the positions 2, 3, 6, 7 of the four records at 457 ft, then
    0, 4, 8 and 1, 5, 9, which is the order the claim asks for.  The default
    sort is free to return the records of one elevation among themselves in
    any order: every ordering of the positions that puts the elevations in
    descending order, the missing one last, is the result of an indexer that
    meets its contract, the reversed ties of the second indexer among
    them. *)
Lemma top_elev_ties_at_eleven_records :
  let keys := map elevation_ft eleven in
  @nargsort stable_nargsort keys = [2; 3; 6; 7; 0; 4; 8; 1; 5; 9; 10] /\
  rows (@top_elev stable_nargsort (from_rows eleven))
  = [danbury; meadow; danbury; meadow; bradley; bradley; bradley;
     logan; logan; logan] /\
  @nargsort late_nargsort keys = [7; 6; 3; 2; 8; 4; 0; 9; 5; 1; 10] /\
  rows (@top_elev late_nargsort (from_rows eleven))
  = [meadow; danbury; meadow; danbury; bradley; bradley; bradley;
     logan; logan; logan] /\
  (forall indexer,
     Permutation indexer (seq 0 11) ->
     StronglySorted precedes (map (fun i => nth i keys None) indexer) ->
     exists sorter : Nargsort,
       @nargsort sorter keys = indexer /\
       rows (@top_elev sorter (from_rows eleven)) = firstn 10 (take indexer eleven)).
Proof.
  cbv zeta. split; [vm_compute; reflexivity|]. split; [vm_compute; reflexivity|].
  split; [vm_compute; reflexivity|]. split; [vm_compute; reflexivity|].
  intros indexer Hperm Hsorted.
  exists (fixed_nargsort (map elevation_ft eleven) indexer Hperm Hsorted).
  assert (Hidx : @nargsort (fixed_nargsort (map elevation_ft eleven) indexer Hperm Hsorted)
                   (map elevation_ft eleven) = indexer)
    by apply fixed_indexer_at.
  split; [exact Hidx|].
  change (rows (@top_elev (fixed_nargsort (map elevation_ft eleven) indexer Hperm Hsorted)
                  (from_rows eleven)))
    with (firstn 10
            (take (@nargsort (fixed_nargsort (map elevation_ft eleven) indexer Hperm Hsorted)
                     (map elevation_ft eleven)) eleven)).
  now rewrite Hidx.
Qed.

(** C1 as stated fails: for a region without airports [region_summary]
    returns the count 0 and, as the maximum, the float NaN, the same value
    as the missing cell of a record without elevation. *)
Lemma region_summary_without_airports_returns_nan :
  region_summary (from_rows [logan]) None = (0, None) /\
  snd (region_summary (from_rows [logan]) None) = elevation_ft no_elevation /\
  region_summary (from_rows [no_elevation]) (Some "US-MA") = (1, None).
Proof. vm_compute. repeat split. Qed.

(** C6 as stated fails: a record without type is in no group, so the cells
    add up to one less than the number of records. *)
Lemma pivot_sum_misses_record_without_type :
  cell_sum (pivot (from_rows [bradley; no_type])) = 1%Z /\
  List.length (rows (from_rows [bradley; no_type])) = 2 /\
  pivot_index (pivot (from_rows [bradley; no_type])) = ["US-CT"%string].
Proof. vm_compute. repeat split. Qed.

(** C7 at a table where one record lacks its region code: line 60 has no
    [dropna], [sorted] compares NaN with a string and raises; a table whose
    only region code is missing gets the NaN back as a choice. *)
Theorem region_list_with_missing_region :
  region_list (from_rows [bradley; no_region]) = Raise TypeError /\
  region_list (from_rows [no_region]) = Ok [None] /\
  city_list (from_rows [bradley; no_elevation; danbury])
  = Ok [Some "Danbury"; Some "Windsor Locks"]%string.
Proof. vm_compute. repeat split. Qed.

(** * Further properties of the script *)

Close Scope string_scope.

(** ** Cleaning is idempotent *)

Lemma select_all_true {A} (mask : list bool) : forall l : list A,
  forallb (fun b => b) mask = true -> List.length l <= List.length mask ->
  select mask l = l.
Proof.
  induction mask as [|b m IH]; intros [|x t]; simpl; auto; try lia.
  - now destruct b.
  - destruct b; simpl; [|discriminate]. intros Hm Hl. rewrite IH; auto. lia.
Qed.

Lemma length_select_le {A} (mask : list bool) : forall l : list A,
  List.length (select mask l) <= List.length (filter (fun b => b) mask).
Proof.
  induction mask as [|b m IH]; intros [|x t]; simpl; try lia.
  - destruct b; simpl; lia.
  - destruct b; simpl; [apply le_n_S|]; apply IH.
Qed.

Lemma length_filter_map {A} (f : A -> bool) (l : list A) :
  List.length (filter (fun b => b) (map f l)) = List.length (filter f l).
Proof.
  induction l as [|x t IH]; simpl; [reflexivity|].
  destruct (f x); simpl; now rewrite IH.
Qed.

Lemma forallb_map_filter {A} (f : A -> bool) (l : list A) :
  forallb (fun b => b) (map f (filter f l)) = true.
Proof.
  induction l as [|x t IH]; simpl; [reflexivity|].
  destruct (f x) eqn:E; simpl; [now rewrite E|exact IH].
Qed.

(** X1.  Dropping the records without coordinates a second time changes
    nothing, whatever columns the table has: the cleaned table is a fixed
    point of the cleaning, its records are those of the table that have
    both coordinates, in the order of the table. *)
Theorem dropna_coords_idempotent (df : DataFrame) :
  dropna_coords (dropna_coords df) = dropna_coords df /\
  rows (dropna_coords df) = filter coords_present (rows df).
Proof.
  assert (Hrows : rows (dropna_coords df) = filter coords_present (rows df)).
  { unfold dropna_coords, getitem_mask; cbn [rows]. apply select_map_filter. }
  split; [|exact Hrows].
  unfold dropna_coords at 1. unfold getitem_mask. rewrite Hrows.
  set (mask := map coords_present (filter coords_present (rows df))).
  assert (Hmask : forallb (fun b => b) mask = true) by apply forallb_map_filter.
  assert (Hlen : List.length mask = List.length (filter coords_present (rows df)))
    by apply length_map.
  assert (Hcol : forall A (col : list A),
            select mask (select (map coords_present (rows df)) col)
            = select (map coords_present (rows df)) col).
  { intros A col. apply select_all_true; [exact Hmask|].
    rewrite Hlen, <- length_filter_map. apply length_select_le. }
  unfold dropna_coords, getitem_mask.
  cbn [rows name_length high_altitude]. f_equal.
  - rewrite select_map_filter. apply select_all_true; [exact Hmask|]. lia.
  - destruct (name_length df); simpl; [now rewrite Hcol|reflexivity].
  - destruct (high_altitude df); simpl; [now rewrite Hcol|reflexivity].
Qed.

(** ** The filters compose *)

(** X2.  The scheduled-service box and the city filter can be applied in
    either order and give the same records; with the box ticked every
    record shown has scheduled service "yes", and ticking it twice is
    ticking it once. *)
Theorem scheduled_and_city_filters_commute
    (df : DataFrame) (show : bool) (selected_city : text) :
  rows (city_filtered_airports (scheduled_only show df) selected_city)
  = rows (scheduled_only show (city_filtered_airports df selected_city)) /\
  rows (scheduled_only show (scheduled_only show df))
  = rows (scheduled_only show df) /\
  Forall (fun r => scheduled_service r = Some "yes"%string)
         (rows (scheduled_only true df)).
Proof.
  split; [|split].
  - rewrite rows_city_filtered_airports, !rows_scheduled_only,
      rows_city_filtered_airports, !filter_twice.
    apply filter_ext. intros r. apply andb_comm.
  - rewrite !rows_scheduled_only, filter_twice.
    apply filter_ext. intros r. now destruct (negb show || _).
  - rewrite rows_scheduled_only. apply Forall_forall. intros r Hr.
    apply filter_In in Hr. destruct Hr as [_ Hr]. simpl in Hr.
    now apply text_eqb_eq.
Qed.

(** ** The regions of the dropdown and their summaries *)

Lemma region_count_filter (df : DataFrame) (region : string) :
  fst (region_summary df (Some region))
  = List.length (filter (String.eqb region) (dropna (map iso_region (rows df)))).
Proof.
  simpl. unfold getitem_mask; cbn [rows]. rewrite select_eq_mask.
  induction (rows df) as [|x t IH]; simpl; [reflexivity|].
  destruct (iso_region x) as [a|]; simpl; [|exact IH].
  rewrite (String.eqb_sym region a).
  destruct (a =? region)%string; simpl; now rewrite IH.
Qed.

Lemma length_dropna_filter {A} (col : list (option A)) :
  List.length (dropna col) = List.length (filter notna col).
Proof.
  induction col as [|[a|] t IH]; simpl; auto.
Qed.

Lemma region_counts_partition_lemma (df : DataFrame) :
  let regions := unique String.eqb (dropna (map iso_region (rows df))) in
  list_sum (map (fun r => fst (region_summary df (Some r))) regions)
  = List.length (filter (fun x => notna (iso_region x)) (rows df)) /\
  NoDup regions /\
  (forall r, In r regions <-> exists x, In x (rows df) /\ iso_region x = Some r).
Proof.
  cbv zeta. set (codes := dropna (map iso_region (rows df))).
  split; [|split].
  - rewrite (map_ext _ (fun r => List.length (filter (fun s => String.eqb r s) codes)))
      by (intros r; apply region_count_filter).
    rewrite (count_partition String.eqb (fun s => s) String.eqb_eq).
    + unfold codes. rewrite length_dropna_filter.
      induction (rows df) as [|x t IH]; simpl; [reflexivity|].
      destruct (notna (iso_region x)); simpl; now rewrite IH.
    + apply NoDup_unique, String.eqb_eq.
    + intros s Hs. now apply (in_unique String.eqb String.eqb_eq).
  - apply NoDup_unique, String.eqb_eq.
  - intros r. rewrite (in_unique String.eqb String.eqb_eq). unfold codes.
    rewrite in_dropna, in_map_iff. split; intros [x H]; exists x; tauto.
Qed.

Lemma py_sorted_perm (l out : list text) :
  py_sorted l = Ok out -> Permutation l out.
Proof.
  unfold py_sorted. destruct (forallb notna l) eqn:E.
  - intros [= <-]. rewrite <- (forallb_notna_dropna l E) at 1.
    apply Permutation_map, StringSort.Permuted_sort.
  - destruct (forallb isna l); [|discriminate]. now intros [= <-].
Qed.

Lemma forallb_notna_false {A} (l : list (option A)) :
  forallb notna l = false <-> In None l.
Proof.
  induction l as [|[a|] t IH]; simpl.
  - split; [discriminate|tauto].
  - rewrite IH. split; [auto|]. intros [H|H]; [discriminate|auto].
  - split; auto.
Qed.

Lemma forallb_isna_false {A} (l : list (option A)) :
  forallb isna l = false <-> exists a, In (Some a) l.
Proof.
  induction l as [|[a|] t IH]; simpl.
  - split; [discriminate|]. intros [a []].
  - split; [eauto|reflexivity].
  - rewrite IH. split; intros [a H]; exists a; [auto|].
    destruct H as [H|H]; [discriminate|exact H].
Qed.

Lemma region_list_ok_values (data : DataFrame) (regions : list text) :
  region_list data = Ok regions ->
  NoDup regions /\
  forall c, In c regions <-> In c (map iso_region (rows data)).
Proof.
  unfold region_list. intros H. apply py_sorted_perm in H. split.
  - eapply Permutation_NoDup; [exact H|]. apply NoDup_unique, cell_eqb_spec.
  - intros c.
    rewrite <- (in_unique cell_eqb cell_eqb_spec c (map iso_region (rows data))).
    split; intros Hc.
    + eapply Permutation_in; [symmetry; exact H|exact Hc].
    + eapply Permutation_in; [exact H|exact Hc].
Qed.

(** X3.  Line 60 raises exactly on a table that has both a record without
    region code and a record with one; it never stops the script.  When it
    returns, the dropdown holds each value of the column once. *)
Theorem region_list_raises_iff_mixed (data : DataFrame) :
  (region_list data = Raise TypeError <->
   (exists x, In x (rows data) /\ iso_region x = None) /\
   (exists x s, In x (rows data) /\ iso_region x = Some s)) /\
  (forall message, region_list data = Stop message <-> False) /\
  (forall regions, region_list data = Ok regions ->
     NoDup regions /\
     forall c, In c regions <-> In c (map iso_region (rows data))).
Proof.
  split; [|split; [|apply region_list_ok_values]].
  - unfold region_list.
    set (col := map iso_region (rows data)).
    set (u := unique cell_eqb col).
    assert (Hu : forall c, In c u <-> In c col)
      by (intros c; apply (in_unique cell_eqb cell_eqb_spec)).
    unfold py_sorted.
    destruct (forallb notna u) eqn:E1; [|destruct (forallb isna u) eqn:E2].
    + split; [discriminate|]. intros [[x [Hx Hn]] _]. exfalso.
      assert (Hin : In None u) by (apply Hu; rewrite <- Hn; now apply in_map).
      apply forallb_notna_false in Hin. congruence.
    + split; [discriminate|]. intros [_ [x [s [Hx Hs]]]]. exfalso.
      assert (Hin : exists a, In (Some a) u).
      { exists s. apply Hu. rewrite <- Hs. now apply in_map. }
      apply forallb_isna_false in Hin. congruence.
    + split; [intros _|reflexivity].
      apply forallb_notna_false in E1. apply forallb_isna_false in E2.
      destruct E2 as [s Hs]. apply Hu in E1. apply Hu in Hs.
      apply in_map_iff in E1. destruct E1 as [x [Hx1 Hx2]].
      apply in_map_iff in Hs. destruct Hs as [y [Hy1 Hy2]].
      split; [now exists x|now exists y, s].
  - intros message. unfold region_list, py_sorted.
    destruct (forallb notna _); [|destruct (forallb isna _)];
      split; try discriminate; tauto.
Qed.

(** X4.  A region code is in the dropdown exactly when [region_summary]
    counts at least one airport for it: every region offered has airports,
    and the table of line 63 for it is not empty. *)
Theorem listed_region_has_airports
    (data : DataFrame) (regions : list text) (r : string) :
  region_list data = Ok regions ->
  (In (Some r) regions <-> 0 < fst (region_summary data (Some r))) /\
  (In (Some r) regions <-> empty (region_airports data (Some r)) = false).
Proof.
  intros H.
  destruct (region_list_ok_values data regions H) as [_ Hin].
  rewrite Hin, in_map_iff.
  assert (Hrows : rows (region_airports data (Some r))
                  = filter (fun x => text_eqb (iso_region x) (Some r)) (rows data))
    by apply rows_region_airports.
  assert (Hcount : fst (region_summary data (Some r))
                   = List.length (rows (region_airports data (Some r))))
    by reflexivity.
  rewrite Hcount. unfold empty. rewrite Hrows.
  set (sub := filter _ (rows data)).
  assert (Hsub : (exists x, iso_region x = Some r /\ In x (rows data)) <-> sub <> []).
  { split.
    - intros [x [Hx1 Hx2]] Hnil.
      assert (Hx : In x sub) by (apply filter_In; split; [auto|now apply text_eqb_eq]).
      rewrite Hnil in Hx. destruct Hx.
    - intros Hne. destruct sub as [|x t] eqn:E; [congruence|].
      assert (Hx : In x sub) by (rewrite E; now left).
      apply filter_In in Hx. exists x. split; [now apply text_eqb_eq|tauto]. }
  rewrite Hsub. destruct sub; simpl; split; split; intros; try congruence; try lia.
Qed.

Lemma listed_region_has_airports_witness :
  (In (Some "US-CT"%string) [Some "US-CT"%string; Some "US-MA"%string]
   <-> 0 < fst (region_summary (from_rows [bradley; logan; danbury]) (Some "US-CT"%string))) /\
  (In (Some "US-CT"%string) [Some "US-CT"%string; Some "US-MA"%string]
   <-> empty (region_airports (from_rows [bradley; logan; danbury]) (Some "US-CT"%string))
       = false).
Proof.
  apply (listed_region_has_airports (from_rows [bradley; logan; danbury])).
  vm_compute. reflexivity.
Defined.

(** ** The cities of the dropdown *)

Lemma filter_text_None (proj : Row -> text) (l : list Row) :
  filter (fun r => text_eqb (proj r) None) l = [].
Proof.
  induction l as [|y t IH]; simpl; [reflexivity|].
  destruct (proj y); simpl; exact IH.
Qed.

Lemma city_table_not_empty (airports : DataFrame) (city : text) :
  empty (city_filtered_airports airports city) = false <->
  exists r, In r (rows airports) /\ text_eqb (municipality r) city = true.
Proof.
  unfold empty. rewrite rows_city_filtered_airports.
  set (sub := filter _ (rows airports)). split.
  - intros H. destruct sub as [|x t] eqn:E; [discriminate|].
    assert (Hx : In x sub) by (rewrite E; now left).
    apply filter_In in Hx. now exists x.
  - intros [r Hr].
    assert (Hx : In r sub) by (apply filter_In; exact Hr).
    destruct sub; [destruct Hx|reflexivity].
Qed.

(** X5.  With the scheduled-service box unticked: the cities of the
    dropdown of a region are exactly the present municipalities that have
    an airport in the region, and for each of them the page shows the table
    of its airports.  The dropdown is empty exactly when no record of the
    region has a municipality.  The page shows the text "No airports found
    in this city." exactly when the dropdown had nothing to pick at the
    chosen position, so always when it is empty. *)
Theorem listed_city_has_airports
    (data : DataFrame) (region : text) (cities : list text) :
  city_list (region_airports data region) = Ok cities ->
  let airports := region_airports data region in
  let shown_for c :=
    show_city (city_filtered_airports (scheduled_only false airports) c) in
  (forall city, In city cities <->
     exists s, city = Some s /\
               empty (city_filtered_airports airports city) = false) /\
  (forall city, In city cities ->
     shown_for city = ShowFrame (city_filtered_airports airports city)) /\
  (cities = [] <-> forall r, In r (rows airports) -> municipality r = None) /\
  (forall choice,
     shown_for (selectbox cities choice)
     = ShowText "No airports found in this city."
     <-> List.length cities <= choice).
Proof.
  intros Hlist. cbv zeta.
  destruct (city_list_distinct_sorted (region_airports data region))
    as [l [Hl [_ Hmem]]].
  rewrite Hlist in Hl. injection Hl as ->.
  set (ra := region_airports data region) in *.
  assert (Hlisted : forall city, In city (map Some l) <->
            exists s, city = Some s /\
                      empty (city_filtered_airports ra city) = false).
  { intros city. rewrite in_map_iff. split.
    - intros [s [<- Hs]]. exists s. split; [reflexivity|].
      apply city_table_not_empty. apply Hmem in Hs. destruct Hs as [r [Hr Hm]].
      exists r. split; [exact Hr|now apply text_eqb_eq].
    - intros [s [-> Hne]]. exists s. split; [reflexivity|].
      apply city_table_not_empty in Hne. destruct Hne as [r [Hr Hm]].
      apply Hmem. exists r. split; [exact Hr|now apply text_eqb_eq]. }
  assert (Hframe : forall city, In city (map Some l) ->
            show_city (city_filtered_airports (scheduled_only false ra) city)
            = ShowFrame (city_filtered_airports ra city)).
  { intros city Hc. apply Hlisted in Hc. destruct Hc as [s [_ Hne]].
    unfold show_city. cbn [scheduled_only]. now rewrite Hne. }
  split; [exact Hlisted|]. split; [exact Hframe|]. split.
  - split.
    + intros Hnil r Hr. destruct (municipality r) as [s|] eqn:E; [|reflexivity].
      assert (Hs : In s l) by (apply Hmem; now exists r).
      destruct l; [destruct Hs|discriminate].
    + intros Hnone. destruct l as [|s t]; [reflexivity|]. exfalso.
      destruct (proj1 (Hmem s) (or_introl eq_refl)) as [r [Hr Hm]].
      rewrite (Hnone r Hr) in Hm. discriminate.
  - intros choice. unfold selectbox, text.
    match goal with
    | |- context [nth_error ?options choice] =>
        destruct (nth_error options choice) as [c|] eqn:E
    end; cbv beta iota.
    + assert (Hlt : choice < List.length (map Some l))
        by (apply nth_error_Some; congruence).
      rewrite (Hframe c (nth_error_In _ _ E)).
      split; [discriminate|lia].
    + apply nth_error_None in E. split; [intros _; exact E|intros _].
      unfold show_city, empty. rewrite rows_city_filtered_airports.
      now rewrite filter_text_None.
Qed.

Lemma listed_city_has_airports_witness :
  let airports :=
    region_airports (from_rows [bradley; logan; danbury]) (Some "US-CT"%string) in
  let cities := [Some "Danbury"%string; Some "Windsor Locks"%string] in
  let shown_for c :=
    show_city (city_filtered_airports (scheduled_only false airports) c) in
  (forall city, In city cities <->
     exists s, city = Some s /\
               empty (city_filtered_airports airports city) = false) /\
  (forall city, In city cities ->
     shown_for city = ShowFrame (city_filtered_airports airports city)) /\
  (cities = [] <-> forall r, In r (rows airports) -> municipality r = None) /\
  (forall choice,
     shown_for (selectbox cities choice)
     = ShowText "No airports found in this city."
     <-> List.length cities <= choice).
Proof.
  apply (listed_city_has_airports (from_rows [bradley; logan; danbury])
           (Some "US-CT"%string)
           [Some "Danbury"%string; Some "Windsor Locks"%string]).
  vm_compute. reflexivity.
Defined.

Example empty_city_dropdown_shows_text :
  let airports := region_airports (from_rows [bradley; no_elevation])
                    (Some "US-MA"%string) in
  city_list airports = Ok [] /\
  show_city (city_filtered_airports (scheduled_only false airports) (selectbox [] 0))
  = ShowText "No airports found in this city.".
Proof. vm_compute. split; reflexivity. Qed.

(** ** When the script runs to its end *)

Definition has_name_and_region (r : Row) : bool :=
  notna (name r) && notna (iso_region r).

Lemma map_outcome_py_len_cases (l : list text) :
  (forallb notna l = true /\ exists lens, map_outcome py_len l = Ok lens) \/
  (forallb notna l = false /\ map_outcome py_len l = Raise TypeError).
Proof.
  induction l as [|[s|] t IH]; simpl.
  - left. split; [reflexivity|]. now exists [].
  - destruct IH as [[-> [lens ->]]|[-> ->]]; simpl; [left|right]; eauto.
  - now right.
Qed.

Lemma forallb_notna_unique (l : list text) :
  forallb notna (unique cell_eqb l) = forallb notna l.
Proof.
  destruct (forallb notna l) eqn:E.
  - apply forallb_forall. intros c Hc.
    apply (proj1 (in_unique cell_eqb cell_eqb_spec c l)) in Hc.
    rewrite forallb_forall in E. now apply E.
  - apply forallb_notna_false. apply forallb_notna_false in E.
    now apply (proj2 (in_unique cell_eqb cell_eqb_spec None l)).
Qed.

Lemma forallb_has_name_and_region (l : list Row) :
  forallb has_name_and_region l
  = forallb notna (map iso_region l) && forallb notna (map name l).
Proof.
  induction l as [|x t IH]; simpl; [reflexivity|]. rewrite IH.
  unfold has_name_and_region.
  destruct (notna (name x)), (notna (iso_region x)),
    (forallb notna (map iso_region t)), (forallb notna (map name t));
    reflexivity.
Qed.

Lemma take_nil {A} (indexer : list nat) : take indexer (@nil A) = [].
Proof.
  unfold take. induction indexer as [|i t IH]; simpl; [reflexivity|].
  rewrite IH. now destruct i.
Qed.

Section RunFacts.

Context {sorter : Nargsort}.

Lemma render_cases w df :
  (exists v, render w df = Ok v) \/ (exists e, render w df = Raise e).
Proof.
  unfold render. destruct (page w); simpl; eauto.
  - destruct (region_list df) as [regions|m|e] eqn:E; simpl; eauto.
    + destruct (city_list_distinct_sorted
                  (region_airports df (selectbox regions (region_choice w))))
        as [l [-> _]]. simpl. eauto.
    + exfalso. unfold region_list, py_sorted in E.
      destruct (forallb notna _); [|destruct (forallb isna _)]; discriminate.
  - destruct (region_counts df); simpl; eauto.
Qed.

Lemma render_charts_empty w df :
  page w = ChartsAnalysis -> rows df = [] -> render w df = Raise ValueError.
Proof.
  intros Hp Hrows. unfold render. rewrite Hp.
  unfold region_counts, value_counts. rewrite Hrows. cbn [map dropna unique combine].
  now rewrite take_nil.
Qed.

(** The run after a successful load, spelled out. *)
Lemma run_after_load csv w df :
  load csv = Ok df ->
  run csv w
  = (v <- render w df ;;
     lens <- map_outcome py_len (unique cell_eqb (map iso_region (rows df))) ;;
     named <- add_name_length df ;;
     Ok (mkState (add_high_altitude named)
           (Some (region_summary df None, region_summary df (Some "US-MA"%string)))
           (Some v) (Some lens))).
Proof.
  intros H. unfold run, run_prefix. rewrite H. cbn [bind].
  cbn [script List.length firstn exec_all exec loaded bind data summaries view
       region_lengths].
  destruct (render w df); cbn [bind data summaries view region_lengths]; auto.
  destruct (map_outcome py_len _); cbn [bind data summaries view region_lengths]; auto.
  destruct (add_name_length df); cbn [bind data summaries view region_lengths]; auto.
Qed.

End RunFacts.

Ltac settle_outcome :=
  repeat split; intros;
  repeat match goal with
         | H : exists _, _ |- _ => destruct H
         | H : _ /\ _ |- _ => destruct H
         end;
  try discriminate; try reflexivity; try congruence; eauto.

(** X6.  A run that reaches the end of the script has read the CSV, and
    every record that has its coordinates also has a name and a region
    code; on the charts page the table is moreover not empty.  The script
    stops exactly when the load stops.  When a record with coordinates
    lacks its name or its region code the run ends in an exception, and so
    it does, with the ValueError of the pie chart, on the charts page of a
    table without records. *)
Theorem run_needs_names_and_regions
    (sorter : Nargsort) (csv : read_csv_result) (w : Widgets) :
  ((exists st, run csv w = Ok st) ->
   exists records, csv = CsvFrame records /\
     forallb has_name_and_region (filter coords_present records) = true /\
     (page w = ChartsAnalysis -> exists r, In r (filter coords_present records))) /\
  (forall message, run csv w = Stop message <-> load csv = Stop message) /\
  (forall records, csv = CsvFrame records ->
     forallb has_name_and_region (filter coords_present records) = false ->
     exists e, run csv w = Raise e) /\
  (forall records, csv = CsvFrame records -> page w = ChartsAnalysis ->
     filter coords_present records = [] -> run csv w = Raise ValueError).
Proof.
  destruct (load csv) as [df|m|e] eqn:Hload.
  - pose proof (run_after_load csv w df Hload) as Hrun.
    apply load_ok in Hload. destruct Hload as [records [-> ->]].
    cbn [from_rows rows] in Hrun. rewrite Hrun. clear Hrun.
    set (kept := filter coords_present records).
    unfold add_name_length. cbn [rows from_rows].
    assert (Hcomplete : forallb has_name_and_region kept
              = forallb notna (map iso_region kept) && forallb notna (map name kept))
      by apply forallb_has_name_and_region.
    split; [|split; [|split]].
    + intros [st Hst]. exists records. split; [reflexivity|]. fold kept.
      apply bind_ok in Hst. destruct Hst as [v [Hv Hst]].
      apply bind_ok in Hst. destruct Hst as [lens [Hlens Hst]].
      apply bind_ok in Hst. destruct Hst as [named [Hnamed _]].
      apply bind_ok in Hnamed. destruct Hnamed as [ns [Hns _]].
      split.
      * rewrite Hcomplete.
        destruct (map_outcome_py_len_cases (unique cell_eqb (map iso_region kept)))
          as [[Hr _]|[_ Hr]]; [|congruence].
        rewrite forallb_notna_unique in Hr.
        destruct (map_outcome_py_len_cases (map name kept))
          as [[Hn _]|[_ Hn]]; [|congruence].
        now rewrite Hr, Hn.
      * intros Hp. destruct kept as [|r t] eqn:E; [|exists r; now left].
        rewrite (render_charts_empty w (from_rows []) Hp eq_refl) in Hv.
        discriminate.
    + intros message.
      destruct (render_cases w (from_rows kept)) as [[v ->]|[e ->]];
        cbn [bind]; [|settle_outcome].
      destruct (map_outcome_py_len_cases (unique cell_eqb (map iso_region kept)))
        as [[_ [lens ->]]|[_ ->]]; cbn [bind]; [|settle_outcome].
      destruct (map_outcome_py_len_cases (map name kept))
        as [[_ [ns ->]]|[_ ->]]; cbn [bind]; settle_outcome.
    + intros records0 [= <-] Hfalse. fold kept in Hfalse.
      rewrite Hcomplete in Hfalse.
      destruct (render_cases w (from_rows kept)) as [[v ->]|[e ->]];
        cbn [bind]; [|eauto].
      destruct (map_outcome_py_len_cases (unique cell_eqb (map iso_region kept)))
        as [[Hr [lens ->]]|[_ ->]]; cbn [bind]; [|eauto].
      rewrite forallb_notna_unique in Hr. rewrite Hr in Hfalse. simpl in Hfalse.
      destruct (map_outcome_py_len_cases (map name kept))
        as [[Hn _]|[_ ->]]; cbn [bind]; [congruence|eauto].
    + intros records0 [= <-] Hp Hnil. fold kept in Hnil. rewrite Hnil.
      now rewrite (render_charts_empty w (from_rows []) Hp eq_refl).
  - unfold run, run_prefix. rewrite Hload. cbn [bind].
    destruct csv; simpl in Hload; try discriminate; settle_outcome.
  - destruct csv; discriminate.
Qed.

Example charts_page_of_empty_table_raises :
  @run stable_nargsort (CsvFrame [no_latitude]) (on_page ChartsAnalysis)
  = Raise ValueError.
Proof. vm_compute. reflexivity. Qed.

(** X7.  What the user picks changes only what the page shows: two runs on
    the same CSV that both complete end with the same table, the same two
    summaries and the same region lengths. *)
Theorem run_result_independent_of_widgets
    (sorter : Nargsort) (csv : read_csv_result) (w1 w2 : Widgets) (st1 st2 : State) :
  run csv w1 = Ok st1 -> run csv w2 = Ok st2 ->
  data st1 = data st2 /\
  summaries st1 = summaries st2 /\
  region_lengths st1 = region_lengths st2.
Proof.
  intros H1 H2.
  destruct (load csv) as [df|m|e] eqn:Hload;
    [|unfold run, run_prefix in H1; rewrite Hload in H1; discriminate..].
  rewrite (run_after_load csv w1 df Hload) in H1.
  rewrite (run_after_load csv w2 df Hload) in H2.
  destruct (render w1 df); try discriminate.
  destruct (render w2 df); try discriminate. cbn [bind] in H1, H2.
  destruct (map_outcome py_len _); try discriminate. cbn [bind] in H1, H2.
  destruct (add_name_length df); try discriminate. cbn [bind] in H1, H2.
  injection H1 as <-. injection H2 as <-. auto.
Qed.

(** The state at the end of the run of the page "Map & Info". *)
Definition sample_final_map : State :=
  Eval vm_compute in
    match @run stable_nargsort sample_csv (on_page MapInfo) with
    | Ok st => st
    | _ => loaded (from_rows [])
    end.

Lemma run_result_independent_of_widgets_witness :
  data sample_final = data sample_final_map /\
  summaries sample_final = summaries sample_final_map /\
  region_lengths sample_final = region_lengths sample_final_map.
Proof.
  apply (run_result_independent_of_widgets stable_nargsort sample_csv
           (on_page AirportFilter) (on_page MapInfo));
    vm_compute; reflexivity.
Defined.

(** ** The chart of the ten highest airports *)

Lemma top_elev_rows {sorter : Nargsort} df :
  rows (top_elev df) = firstn 10 (rows (sort_values_elevation df)).
Proof. reflexivity. Qed.

(** X8.  When some record has an elevation, the first record of [top_elev]
    has the highest elevation of the table, and no region has a higher
    maximum in its summary. *)
Theorem top_elev_starts_with_highest
    (sorter : Nargsort) (df : DataFrame) (m : Q) :
  series_max (map elevation_ft (rows df)) = Some m ->
  exists r q rest,
    rows (top_elev df) = r :: rest /\
    elevation_ft r = Some q /\ (q == m)%Q /\
    forall region mr,
      snd (region_summary df (Some region)) = Some mr -> (mr <= q)%Q.
Proof.
  intros Hmax. apply series_max_some in Hmax. destruct Hmax as [Hin Hub].
  pose proof (sort_values_elevation_perm df) as Hp.
  pose proof (sort_values_elevation_sorted df) as Hs.
  rewrite top_elev_rows. set (sorted := rows (sort_values_elevation df)) in *.
  apply in_map_iff in Hin. destruct Hin as [x [Hx Hxin]].
  apply (Permutation_in _ (Permutation_sym Hp)) in Hxin.
  destruct sorted as [|r rest] eqn:E; [destruct Hxin|].
  apply StronglySorted_inv in Hs. destruct Hs as [_ Hall].
  assert (Hr : In r (rows df)) by (apply (Permutation_in _ Hp); now left).
  assert (Hq : exists q, elevation_ft r = Some q /\ (m <= q)%Q).
  { destruct Hxin as [->|Hxin].
    - exists m. split; [exact Hx|apply Qle_refl].
    - rewrite Forall_forall in Hall. specialize (Hall x Hxin).
      unfold by_elevation in Hall. rewrite Hx in Hall.
      destruct (elevation_ft r) as [q|]; [|destruct Hall]. now exists q. }
  destruct Hq as [q [Hq Hle]].
  assert (Hqm : (q <= m)%Q) by (apply Hub; rewrite <- Hq; now apply in_map).
  exists r, q, (firstn 9 rest). split; [reflexivity|]. split; [exact Hq|].
  split; [now apply Qle_antisym|].
  intros region mr Hmr. simpl in Hmr. apply series_max_some in Hmr.
  destruct Hmr as [Hmr _]. apply in_map_iff in Hmr.
  destruct Hmr as [y [Hy Hyin]]. unfold getitem_mask in Hyin; cbn [rows] in Hyin.
  rewrite select_eq_mask in Hyin. apply filter_In in Hyin.
  eapply Qle_trans; [|exact Hle]. apply Hub. rewrite <- Hy. apply in_map, Hyin.
Qed.

Lemma top_elev_starts_with_highest_witness :
  exists r q rest,
    rows (@top_elev stable_nargsort (from_rows [bradley; logan; danbury])) = r :: rest /\
    elevation_ft r = Some q /\ (q == 457#1)%Q /\
    forall region mr,
      snd (region_summary (from_rows [bradley; logan; danbury]) (Some region)) = Some mr ->
      (mr <= q)%Q.
Proof.
  apply (top_elev_starts_with_highest stable_nargsort
           (from_rows [bradley; logan; danbury]) (457#1)%Q).
  vm_compute. reflexivity.
Defined.

Lemma dropna_app {A} (l1 l2 : list (option A)) :
  dropna (l1 ++ l2) = dropna l1 ++ dropna l2.
Proof.
  induction l1 as [|[a|] t IH]; simpl; auto. now rewrite IH.
Qed.

Lemma length_dropna_le {A} (l : list (option A)) :
  List.length (dropna l) <= List.length l.
Proof. induction l as [|[a|] t IH]; simpl; lia. Qed.

Lemma dropna_all_missing {A B} (f : A -> option B) (l : list A) :
  Forall (fun x => f x = None) l -> dropna (map f l) = [].
Proof.
  induction 1 as [|x t Hx _ IH]; simpl; [reflexivity|]. now rewrite Hx.
Qed.

Lemma dropna_perm_length {A} (l1 l2 : list (option A)) :
  Permutation l1 l2 -> List.length (dropna l1) = List.length (dropna l2).
Proof.
  induction 1 as [|[a|] ? ? _ IH|[a|] [b|] ?|? ? ? _ IH1 _ IH2]; simpl; auto; lia.
Qed.

Lemma StronglySorted_app_r {A} (R : A -> A -> Prop) (l1 l2 : list A) :
  StronglySorted R (l1 ++ l2) -> StronglySorted R l2.
Proof.
  induction l1 as [|a t IH]; simpl; intros H; [exact H|].
  apply IH. now apply StronglySorted_inv in H.
Qed.

(** X9.  When at least ten records have an elevation, every record of
    [top_elev] has one: a record without elevation gets into the chart only
    when fewer than ten records have an elevation. *)
Theorem top_elev_all_present_when_ten
    (sorter : Nargsort) (df : DataFrame) :
  10 <= List.length (dropna (map elevation_ft (rows df))) ->
  Forall (fun r => exists q, elevation_ft r = Some q) (rows (top_elev df)).
Proof.
  intros Hten. rewrite top_elev_rows.
  pose proof (sort_values_elevation_perm df) as Hp.
  pose proof (sort_values_elevation_sorted df) as Hs.
  rewrite <- (dropna_perm_length _ _ (Permutation_map elevation_ft Hp)) in Hten.
  clear Hp. generalize dependent (rows (sort_values_elevation df)).
  intros sorted Hten Hs.
  apply Forall_forall. intros r Hr.
  destruct (elevation_ft r) as [q|] eqn:Er; [now exists q|]. exfalso.
  apply in_split in Hr. destruct Hr as [l1 [l2 Hsplit]].
  assert (Hlen : List.length l1 < 10).
  { pose proof (length_firstn 10 sorted) as H.
    rewrite Hsplit, length_app in H. cbn [List.length] in H. lia. }
  rewrite <- (firstn_skipn 10 sorted), Hsplit, <- app_assoc in Hs, Hten.
  apply StronglySorted_app_r in Hs. cbn [app] in Hs.
  apply StronglySorted_inv in Hs. destruct Hs as [_ Hall].
  assert (Hnone : Forall (fun x => elevation_ft x = None) (l2 ++ skipn 10 sorted)).
  { eapply Forall_impl; [|exact Hall]. intros x Hx. unfold by_elevation in Hx.
    rewrite Er in Hx. now destruct (elevation_ft x). }
  unfold number in *.
  rewrite map_app, dropna_app in Hten. cbn [app map dropna] in Hten.
  rewrite Er in Hten. cbn [dropna] in Hten.
  rewrite (dropna_all_missing elevation_ft _ Hnone), app_nil_r in Hten.
  pose proof (length_dropna_le (map elevation_ft l1)) as Hle.
  rewrite length_map in Hle. unfold number in *. lia.
Qed.

Lemma top_elev_all_present_when_ten_witness :
  let ten := [bradley; logan; danbury; meadow; bradley; logan; danbury; meadow;
              bradley; logan; no_elevation] in
  Forall (fun r => exists q, elevation_ft r = Some q)
         (rows (@top_elev stable_nargsort (from_rows ten))).
Proof.
  apply (top_elev_all_present_when_ten stable_nargsort). vm_compute. lia.
Defined.

(** ** Rows and columns of the pivot table *)

Lemma sum_row (h : string -> nat) (cols : list string) :
  fold_right Z.add 0%Z (map (fun c => Z.of_nat (h c)) cols)
  = Z.of_nat (list_sum (map h cols)).
Proof.
  induction cols as [|c t IH]; simpl; [reflexivity|].
  rewrite IH, Nat2Z.inj_add. reflexivity.
Qed.

Lemma pivot_columns_cover (df : DataFrame) :
  let keys := dropna (map group_key (rows df)) in
  NoDup (pivot_columns (pivot df)) /\
  (forall c, In c (pivot_columns (pivot df)) <-> In c (map snd keys)) /\
  NoDup (pivot_index (pivot df)) /\
  (forall r, In r (pivot_index (pivot df)) <-> In r (map fst keys)).
Proof.
  cbv zeta. unfold pivot; cbn [pivot_index pivot_columns].
  set (keys := dropna (map group_key (rows df))).
  destruct (sort_unique_strict (map snd keys)) as [Hc1 Hc2].
  destruct (sort_unique_strict (map fst keys)) as [Hi1 Hi2].
  repeat split; try apply Hc2; try apply Hi2;
    now apply StronglySorted_NoDup_lt.
Qed.

Lemma group_count_row keys r cols :
  NoDup cols -> (forall k, In k keys -> In (snd k) cols) ->
  list_sum (map (fun c => group_count keys (r, c)) cols)
  = List.length (filter (fun k => String.eqb r (fst k)) keys).
Proof.
  intros Hc Hin.
  set (keys_r := filter (fun k => String.eqb r (fst k)) keys).
  rewrite <- (count_partition String.eqb snd String.eqb_eq keys_r cols Hc).
  - f_equal. apply map_ext. intros c. unfold group_count, keys_r. f_equal.
    clear. induction keys as [|k t IH]; simpl; [reflexivity|].
    unfold key_eqb at 1. simpl.
    destruct (r =? fst k)%string; simpl; [|exact IH].
    destruct (c =? snd k)%string; simpl; now rewrite IH.
  - intros k Hk. apply filter_In in Hk. now apply Hin.
Qed.

Lemma keys_of_region_length df r :
  List.length (filter (fun k => String.eqb r (fst k))
                 (dropna (map group_key (rows df))))
  = List.length (filter (fun x => text_eqb (iso_region x) (Some r) && notna (type x))
                   (rows df)).
Proof.
  induction (rows df) as [|x t IH]; simpl; [reflexivity|].
  unfold group_key at 1.
  destruct (iso_region x) as [a|], (type x) as [b|]; simpl; auto.
  - rewrite (String.eqb_sym r a). destruct (a =? r)%string; simpl; now rewrite IH.
  - now rewrite andb_false_r.
Qed.

Lemma typed_records_of_region (l : list Row) (r : string) :
  forallb (fun x => negb (text_eqb (iso_region x) (Some r)) || notna (type x)) l
  = true ->
  List.length (filter (fun x => text_eqb (iso_region x) (Some r) && notna (type x)) l)
  = List.length (filter (fun x => text_eqb (iso_region x) (Some r)) l).
Proof.
  induction l as [|x t IH]; simpl; [reflexivity|]. intros Hall.
  apply andb_true_iff in Hall. destruct Hall as [Hx Ht].
  destruct (text_eqb (iso_region x) (Some r)); simpl in *.
  - rewrite Hx. simpl. now rewrite IH.
  - now apply IH.
Qed.

(** X10.  The cells of the pivot row of a region add up to the number of
    records of that region that have a type; when no record of the region
    lacks its type, this is the count [region_summary] gives for it. *)
Theorem pivot_row_totals (df : DataFrame) :
  Forall2
    (fun r cells =>
       let total := fold_right Z.add 0%Z cells in
       total = Z.of_nat (List.length
                 (filter (fun x => text_eqb (iso_region x) (Some r) && notna (type x))
                         (rows df))) /\
       (forallb (fun x => negb (text_eqb (iso_region x) (Some r)) || notna (type x))
                (rows df) = true ->
        total = Z.of_nat (fst (region_summary df (Some r)))))
    (pivot_index (pivot df)) (pivot_values (pivot df)).
Proof.
  destruct (pivot_columns_cover df) as [Hnd [Hcov _]]. cbv zeta in Hcov.
  unfold pivot in *; cbn [pivot_index pivot_columns pivot_values] in *.
  set (keys := dropna (map group_key (rows df))) in *.
  set (columns := StringSort.sort (unique String.eqb (map snd keys))) in *.
  apply Forall2_map_self. intros r. cbv zeta.
  assert (Hsum : fold_right Z.add 0%Z
            (map (fun c => fillna0 (lookup (r, c) (groupby_size keys))) columns)
          = Z.of_nat (List.length
              (filter (fun x => text_eqb (iso_region x) (Some r) && notna (type x))
                      (rows df)))).
  { rewrite (map_ext _ (fun c => Z.of_nat (group_count keys (r, c))))
      by (intros c; apply lookup_groupby_size).
    rewrite sum_row, group_count_row; [apply f_equal, keys_of_region_length|exact Hnd|].
    intros k Hk. apply Hcov. now apply in_map. }
  split; [exact Hsum|]. intros Hall. rewrite Hsum. f_equal.
  simpl. unfold getitem_mask; cbn [rows]. rewrite select_eq_mask.
  now apply typed_records_of_region.
Qed.

(** X11.  The pivot table has no empty row and no empty column: every
    region of the index has a positive cell, and so has every type of the
    columns. *)
Theorem pivot_no_empty_row_or_column (df : DataFrame) :
  let p := pivot df in
  Forall (Exists (fun v => (0 < v)%Z)) (pivot_values p) /\
  (forall j, j < List.length (pivot_columns p) ->
             Exists (fun cells => (0 < nth j cells 0)%Z) (pivot_values p)).
Proof.
  destruct (pivot_columns_cover df) as [_ [Hcov [_ Hidx]]]. cbv zeta in *.
  unfold pivot in *; cbn [pivot_index pivot_columns pivot_values] in *.
  set (keys := dropna (map group_key (rows df))) in *.
  set (columns := StringSort.sort (unique String.eqb (map snd keys))) in *.
  set (index := StringSort.sort (unique String.eqb (map fst keys))) in *.
  assert (Hpos : forall r c, In (r, c) keys ->
            (0 < fillna0 (lookup (r, c) (groupby_size keys)))%Z).
  { intros r c Hk. rewrite lookup_groupby_size. unfold group_count.
    assert (Hin : In (r, c) (filter (key_eqb (r, c)) keys))
      by (apply filter_In; split; [exact Hk|now apply key_eqb_spec]).
    destruct (filter _ keys); [destruct Hin|simpl; lia]. }
  split.
  - apply Forall_map, Forall_forall. intros r Hr.
    apply Hidx, in_map_iff in Hr. destruct Hr as [[r' c] [Hr Hk]].
    simpl in Hr. subst r'. apply Exists_exists.
    exists (fillna0 (lookup (r, c) (groupby_size keys))). split; [|now apply Hpos].
    apply in_map_iff. exists c. split; [reflexivity|].
    apply Hcov. apply in_map_iff. now exists (r, c).
  - intros j Hj. set (c := nth j columns EmptyString).
    assert (Hc : In c columns) by now apply nth_In.
    apply Hcov, in_map_iff in Hc. destruct Hc as [[r c'] [Hc Hk]].
    simpl in Hc. subst c'. apply Exists_exists.
    exists (map (fun c0 => fillna0 (lookup (r, c0) (groupby_size keys))) columns).
    split.
    + apply in_map_iff. exists r. split; [reflexivity|].
      apply Hidx, in_map_iff. now exists (r, c).
    + rewrite (nth_indep _ 0%Z (fillna0 (lookup (r, EmptyString) (groupby_size keys))))
        by now rewrite length_map.
      rewrite (map_nth (fun c0 => fillna0 (lookup (r, c0) (groupby_size keys)))).
      now apply Hpos.
Qed.

(** ** The airports per region *)

Lemma combine_map_self {A B} (f : A -> B) (l : list A) :
  combine l (map f l) = map (fun x => (x, f x)) l.
Proof. induction l as [|x t IH]; simpl; congruence. Qed.

Lemma StronglySorted_impl {A} (R S : A -> A -> Prop) (l : list A) :
  (forall a b, R a b -> S a b) -> StronglySorted R l -> StronglySorted S l.
Proof.
  intros H. induction 1 as [|a t _ IH Hall]; constructor; [exact IH|].
  eapply Forall_impl; [|exact Hall]. intros b. apply H.
Qed.

Lemma sum_perm (l1 l2 : list Z) :
  Permutation l1 l2 -> fold_right Z.add 0%Z l1 = fold_right Z.add 0%Z l2.
Proof. induction 1; simpl; lia. Qed.

Lemma take_sorted_by {sorter : Nargsort} {A} (key : A -> number) (l : list A) :
  StronglySorted (fun a b => precedes (key a) (key b))
                 (take (nargsort (map key l)) l).
Proof.
  apply (StronglySorted_map_inv precedes key). rewrite take_map.
  rewrite (take_nth (None : number)).
  - apply nargsort_sorted.
  - eapply Permutation_Forall; [symmetry; apply nargsort_perm|].
    apply Forall_forall. intros i Hi. now apply in_seq in Hi.
Qed.

Definition region_count (df : DataFrame) (r : string) : Z :=
  Z.of_nat (fst (region_summary df (Some r))).

Lemma region_counts_perm {sorter : Nargsort} (df : DataFrame) :
  Permutation (region_counts df)
    (map (fun r => (r, region_count df r))
         (unique String.eqb (dropna (map iso_region (rows df))))).
Proof.
  unfold region_counts, value_counts.
  set (codes := dropna (map iso_region (rows df))).
  set (keys := unique String.eqb codes).
  set (counts := map _ keys).
  assert (Hl : combine keys counts = map (fun r => (r, region_count df r)) keys).
  { unfold counts. rewrite combine_map_self. apply map_ext. intros r.
    unfold region_count. now rewrite region_count_filter. }
  rewrite <- Hl. apply take_perm.
  rewrite Hl, length_map.
  replace (List.length keys)
    with (List.length (map (fun c => Some (inject_Z c)) counts))
    by (unfold counts; now rewrite !length_map).
  apply nargsort_perm.
Qed.

Lemma region_summary_count_pos (df : DataFrame) (r : string) (n : Z) :
  (0 < n)%Z /\ n = Z.of_nat (fst (region_summary df (Some r))) <->
  (exists x, In x (rows df) /\ iso_region x = Some r) /\ n = region_count df r.
Proof.
  unfold region_count. rewrite region_count_filter.
  set (codes := dropna (map iso_region (rows df))).
  assert (Hiff : (exists x, In x (rows df) /\ iso_region x = Some r) <-> In r codes).
  { unfold codes. rewrite in_dropna, in_map_iff.
    split; intros [x H]; exists x; tauto. }
  rewrite Hiff. split; intros [H ->]; (split; [|reflexivity]).
  - destruct (filter (String.eqb r) codes) as [|s t] eqn:E; [simpl in H; lia|].
    assert (Hs : In s (filter (String.eqb r) codes)) by (rewrite E; now left).
    apply filter_In in Hs. destruct Hs as [Hs Heq].
    apply String.eqb_eq in Heq. now subst.
  - assert (Hs : In r (filter (String.eqb r) codes))
      by (apply filter_In; split; [exact H|apply String.eqb_refl]).
    destruct (filter (String.eqb r) codes); [destruct Hs|simpl; lia].
Qed.

(** X12.  [region_counts] lists every region code of the table once, with
    the count [region_summary] gives for it, which is at least one; the
    counts never increase down the list and add up to the number of records
    that have a region code. *)
Theorem region_counts_lists_each_region (sorter : Nargsort) (df : DataFrame) :
  let listed := region_counts df in
  NoDup (map fst listed) /\
  (forall r n, In (r, n) listed <->
     (0 < n)%Z /\ n = Z.of_nat (fst (region_summary df (Some r)))) /\
  StronglySorted (fun a b => (snd b <= snd a)%Z) listed /\
  fold_right Z.add 0%Z (map snd listed)
  = Z.of_nat (List.length (filter (fun x => notna (iso_region x)) (rows df))).
Proof.
  cbv zeta. pose proof (region_counts_perm df) as Hp.
  destruct (region_counts_partition_lemma df) as [Hsum [Hnd Hin]].
  set (keys := unique String.eqb (dropna (map iso_region (rows df)))) in *.
  split; [|split; [|split]].
  - eapply Permutation_NoDup; [symmetry; apply Permutation_map; exact Hp|].
    rewrite map_map. simpl. now rewrite map_id.
  - intros r n. rewrite region_summary_count_pos, <- Hin. split.
    + intros H. apply (Permutation_in _ Hp) in H. apply in_map_iff in H.
      destruct H as [r' [[= -> <-] Hr]]. now split.
    + intros [Hr ->]. apply (Permutation_in _ (Permutation_sym Hp)).
      apply in_map_iff. now exists r.
  - apply (StronglySorted_impl
             (fun a b => precedes (Some (inject_Z (snd a))) (Some (inject_Z (snd b))))).
    { intros a b H. simpl in H. now rewrite Zle_Qle. }
    unfold region_counts, value_counts. cbv zeta.
    match goal with
    | |- context [combine ?k (map ?f ?k)] =>
        replace (map (fun c => Some (inject_Z c)) (map f k))
          with (map (fun p : string * Z => Some (inject_Z (snd p)))
                    (combine k (map f k)))
          by (now rewrite combine_map_self, !map_map)
    end.
    apply take_sorted_by.
  - rewrite (sum_perm _ _ (Permutation_map snd Hp)), map_map. simpl.
    unfold region_count. rewrite (sum_row (fun r => fst (region_summary df (Some r)))).
    now rewrite Hsum.
Qed.

Example region_counts_of_sample :
  @region_counts stable_nargsort
    (from_rows [logan; bradley; no_region; danbury; meadow])
  = [("US-CT", 3%Z); ("US-MA", 1%Z)]%string.
Proof. vm_compute. reflexivity. Qed.

(** ** The list comprehension of line 158 *)

Lemma unique_cell_map_Some (l : list string) :
  unique cell_eqb (map Some l) = map Some (unique String.eqb l).
Proof.
  induction l as [|x t IH]; simpl; [reflexivity|].
  rewrite IH. f_equal. clear. induction (unique String.eqb t) as [|y u IH];
    simpl; [reflexivity|]. destruct (negb (x =? y)%string); simpl; now rewrite IH.
Qed.

(** X13.  When line 158 succeeds, the table has no record without region
    code, the dropdown of line 60 can be built, and [region_lengths] holds
    the lengths of the region codes of the dropdown, one per code; the
    table itself is left as it was. *)
Theorem region_lengths_match_dropdown
    (sorter : Nargsort) (w : Widgets) (st st' : State) :
  exec w RegionLengths st = Ok st' ->
  exists regions lens,
    region_lengths st' = Some lens /\
    region_list (data st) = Ok (map Some regions) /\
    Permutation lens (map String.length regions) /\
    forallb notna (map iso_region (rows (data st))) = true /\
    data st' = data st.
Proof.
  cbn [exec]. intros H. apply bind_ok in H. destruct H as [lens [Hlens [= <-]]].
  apply map_outcome_py_len in Hlens. destruct Hlens as [names [Hnames ->]].
  set (col := map iso_region (rows (data st))) in *.
  assert (Hall : forallb notna col = true).
  { rewrite <- forallb_notna_unique, Hnames. apply forallb_notna_map_Some. }
  exists (StringSort.sort names), (map String.length names).
  cbn [region_lengths data]. split; [reflexivity|]. split; [|split; [|split]].
  - unfold region_list. fold col. rewrite Hnames. unfold py_sorted.
    now rewrite forallb_notna_map_Some, dropna_map_Some.
  - apply Permutation_map, StringSort.Permuted_sort.
  - exact Hall.
  - reflexivity.
Qed.

Lemma region_lengths_match_dropdown_witness :
  exists regions lens,
    region_lengths sample_final = Some lens /\
    region_list (data sample_final) = Ok (map Some regions) /\
    Permutation lens (map String.length regions) /\
    forallb notna (map iso_region (rows (data sample_final))) = true /\
    data sample_final = data sample_final.
Proof.
  apply (region_lengths_match_dropdown stable_nargsort (on_page MapInfo)
           sample_final sample_final).
  vm_compute. reflexivity.
Defined.

(** ** The centre of the map *)

Lemma series_mean_present {A} (f : A -> number) (l : list A) :
  Forall (fun x => exists q, f x = Some q) l ->
  match l with
  | [] => series_mean (map f l) = None
  | _ :: _ => exists v, series_mean (map f l) = Some v
  end.
Proof.
  intros H. destruct H as [|x t [q Hq] _]; [reflexivity|].
  unfold series_mean. simpl. rewrite Hq. simpl. eauto.
Qed.

(** X14.  After the load the centre of the map is undefined exactly when
    the table has no record: with no record both means are NaN, with at
    least one both are numbers. *)
Theorem map_centre_defined_iff_records (csv : read_csv_result) (df : DataFrame) :
  load csv = Ok df ->
  match rows df with
  | [] => mean_coordinate df = Ok (None, None)
  | _ :: _ => exists lat lon, mean_coordinate df = Ok (Some lat, Some lon)
  end.
Proof.
  intros H. apply load_ok in H. destruct H as [records [_ ->]].
  cbn [from_rows rows]. set (kept := filter coords_present records).
  assert (Hlat : Forall (fun x => exists q, latitude_deg x = Some q) kept /\
                 Forall (fun x => exists q, longitude_deg x = Some q) kept).
  { split; apply Forall_forall; intros x Hx; apply filter_In in Hx;
      destruct Hx as [_ Hx]; unfold coords_present in Hx;
      destruct (latitude_deg x), (longitude_deg x); try discriminate; eauto. }
  destruct Hlat as [Hlat Hlon]. clearbody kept.
  apply series_mean_present in Hlat. apply series_mean_present in Hlon.
  unfold mean_coordinate; cbn [rows from_rows]. destruct kept as [|x t].
  - now rewrite Hlat, Hlon.
  - destruct Hlat as [lat ->]. destruct Hlon as [lon ->]. eauto.
Qed.

Lemma map_centre_defined_iff_records_witness :
  exists lat lon,
    mean_coordinate (from_rows [bradley; logan]) = Ok (Some lat, Some lon).
Proof.
  apply (map_centre_defined_iff_records
           (CsvFrame [bradley; no_latitude; logan]) (from_rows [bradley; logan])).
  reflexivity.
Defined.

(** ** The page "Airport Filter" as a whole *)

(** X15.  On the page "Airport Filter" every airport of the region table is
    of the selected region, every airport of the city table is of the
    selected city and is in the region table, the cities offered are the
    municipalities of the whole region whether or not the box is ticked, and
    the text is shown exactly when the city table is empty. *)
Theorem filter_page_is_consistent
    (sorter : Nargsort) (w : Widgets) (data : DataFrame)
    (regions : list text) (selected_region : text) (airports : DataFrame)
    (cities : list text) (selected_city : text) (city_filtered : DataFrame)
    (shown : Shown) :
  render w data
  = Ok (FilterView regions selected_region airports cities selected_city
          city_filtered shown) ->
  Forall (fun r => In r (rows data) /\ text_eqb (iso_region r) selected_region = true)
         (rows airports) /\
  Forall (fun r => In r (rows airports) /\ text_eqb (municipality r) selected_city = true)
         (rows city_filtered) /\
  (forall s, In (Some s) cities <->
             exists r, In r (rows data) /\
                       text_eqb (iso_region r) selected_region = true /\
                       municipality r = Some s) /\
  (shown = ShowText "No airports found in this city." <-> rows city_filtered = []) /\
  (shown = ShowFrame city_filtered <-> exists r, In r (rows city_filtered)).
Proof.
  unfold render.
  destruct (page w);
    [|intros H; apply bind_ok in H; destruct H as [u [_ H]]; discriminate
     |discriminate].
  intros H. apply bind_ok in H. destruct H as [regs [_ H]].
  apply bind_ok in H. destruct H as [cs [Hcs H]].
  injection H as <- <- <- <- <- <- <-.
  set (sr := selectbox regs (region_choice w)) in *.
  set (sc := selectbox cs (city_choice w)) in *.
  split; [|split; [|split; [|split]]].
  - apply Forall_forall. intros r Hr.
    rewrite rows_scheduled_only in Hr. apply filter_In in Hr. destruct Hr as [Hr _].
    rewrite rows_region_airports in Hr. now apply filter_In in Hr.
  - apply Forall_forall. intros r Hr.
    rewrite rows_city_filtered_airports in Hr. now apply filter_In in Hr.
  - intros s.
    destruct (city_list_distinct_sorted (region_airports data sr)) as [l [Hl [_ Hmem]]].
    rewrite Hcs in Hl. injection Hl as ->.
    rewrite in_map_iff. split.
    + intros [s' [[= ->] Hs]]. apply Hmem in Hs. destruct Hs as [r [Hr Hm]].
      rewrite rows_region_airports in Hr. apply filter_In in Hr.
      exists r. tauto.
    + intros [r [Hr [Hreg Hm]]]. exists s. split; [reflexivity|].
      apply Hmem. exists r. split; [|exact Hm].
      rewrite rows_region_airports. now apply filter_In.
  - unfold show_city, empty.
    destruct (rows (city_filtered_airports _ sc)); simpl;
      split; intros; try discriminate; auto.
  - unfold show_city, empty.
    destruct (rows (city_filtered_airports _ sc)) as [|x t]; simpl.
    + split; [discriminate|]. intros [r []].
    + split; [|reflexivity]. intros _. exists x. now left.
Qed.

(** The page "Airport Filter" for the sample, with the second region picked
    and the box ticked. *)
Definition sample_filter_widgets : Widgets := mkWidgets AirportFilter 1 0 true.

Definition sample_filter_view : View :=
  Eval vm_compute in
    match @render stable_nargsort sample_filter_widgets
            (from_rows [bradley; logan; no_elevation; danbury]) with
    | Ok v => v
    | _ => MapView None None
    end.

Lemma filter_page_is_consistent_witness :
  let data := from_rows [bradley; logan; no_elevation; danbury] in
  match sample_filter_view with
  | FilterView regions selected_region airports cities selected_city
      city_filtered shown =>
      Forall (fun r => In r (rows data) /\
                       text_eqb (iso_region r) selected_region = true)
             (rows airports) /\
      Forall (fun r => In r (rows airports) /\
                       text_eqb (municipality r) selected_city = true)
             (rows city_filtered) /\
      (forall s, In (Some s) cities <->
                 exists r, In r (rows data) /\
                           text_eqb (iso_region r) selected_region = true /\
                           municipality r = Some s) /\
      (shown = ShowText "No airports found in this city." <-> rows city_filtered = []) /\
      (shown = ShowFrame city_filtered <-> exists r, In r (rows city_filtered))
  | _ => True
  end.
Proof.
  cbv zeta. unfold sample_filter_view. cbv beta iota.
  eapply (filter_page_is_consistent stable_nargsort sample_filter_widgets
            (from_rows [bradley; logan; no_elevation; danbury])).
  lazy. reflexivity.
Defined.

(** ** The two dropdowns *)

(** X16.  The city dropdown never fails: it lists the municipalities that
    occur in the region, each once, in strictly ascending order, and never a
    missing one.  The region dropdown does the same for the region codes on
    a table in which no record lacks its region code. *)
Theorem dropdowns_distinct_and_ascending (data : DataFrame) (selected_region : text) :
  (exists cities,
     city_list (region_airports data selected_region) = Ok (map Some cities) /\
     StronglySorted str_lt cities /\
     forall s, In s cities <->
               exists r, In r (rows (region_airports data selected_region)) /\
                         municipality r = Some s) /\
  (forallb notna (map iso_region (rows data)) = true ->
   exists regions,
     region_list data = Ok (map Some regions) /\
     StronglySorted str_lt regions /\
     forall s, In s regions <->
               exists r, In r (rows data) /\ iso_region r = Some s).
Proof.
  split.
  - apply city_list_distinct_sorted.
  - apply region_list_distinct_sorted.
Qed.

(** X17.  On a table of at most ten records [top_elev] holds every record
    of the table, none twice and none left out. *)
Theorem top_elev_whole_table_when_small (sorter : Nargsort) (df : DataFrame) :
  List.length (rows df) <= 10 ->
  Permutation (rows (top_elev df)) (rows df).
Proof.
  intros H. rewrite top_elev_rows.
  pose proof (sort_values_elevation_perm df) as Hp.
  rewrite firstn_all2; [exact Hp|]. now rewrite (Permutation_length Hp).
Qed.

Lemma top_elev_whole_table_when_small_witness :
  Permutation
    (rows (@top_elev late_nargsort (from_rows [bradley; no_elevation; danbury; meadow])))
    (rows (from_rows [bradley; no_elevation; danbury; meadow])).
Proof.
  apply (top_elev_whole_table_when_small late_nargsort). simpl. lia.
Defined.
